(** * GEOLib geometry helpers ([geolib/utils.py])

    A shallow embedding of the 2-D helpers of [geolib.utils]:
    [polyline_polyline_intersections], [top_of_polygon], [bottom_of_polygon]
    and [polyline_z_at], together with the Python built-ins they call.

    Modelling conventions.
    - A coordinate (a Python [float]) is an exact rational of [Q]; rounding,
      infinities and NaN are outside the model.  Python's [==] on numbers is
      value equality, that is [Qeq_bool], not the identity of representations.
      Where infinities and NaN decide, [polyline_z_at_float] runs the same
      code on IEEE doubles.
    - A point is a pair, a polyline or polygon a [list] of points.
    - A call either returns a value or raises: [result A]. *)

From Stdlib Require Import List Bool Arith Lia QArith Lqa Sorted Permutation.
From Stdlib Require Import NArith.
From Stdlib Require Import Ascii.
From Stdlib Require String.
From Stdlib Require PrimFloat.
Import String.StringSyntax.
Import ListNotations.

Set Warnings "-register-all".

(** ** Exceptions and results *)

Inductive exn : Type :=
| ValueError_empty_arg            (* min() / max() of an empty sequence *)
| ValueError_not_in_list          (* list.index(x): x not in list *)
| IndexError                      (* list index out of range *)
| ZeroDivisionError               (* float division by zero *)
| ValueError_unimplemented_type   (* "Unimplemented intersection type ..." *)
| ValueError_not_between.         (* "Given x coordinate ... is not between ..." *)

Inductive result (A : Type) : Type :=
| Ok (a : A)
| Raise (e : exn).

Arguments Ok {A} a.
Arguments Raise {A} e.

Definition bind {A B : Type} (r : result A) (k : A -> result B) : result B :=
  match r with
  | Ok a => k a
  | Raise e => Raise e
  end.

Notation "x <- r ;; k" := (bind r (fun x => k))
  (at level 61, r at next level, right associativity).
Notation "' p <- r ;; k" := (bind r (fun x => let 'p := x in k))
  (at level 61, p pattern, r at next level, right associativity).

(** ** Numbers and points *)

Definition point : Type := (Q * Q)%type.

(** [a < b] on numbers. *)
Definition Qlt_bool (a b : Q) : bool := negb (Qle_bool b a).

(** [a / b]: Python raises [ZeroDivisionError] when [b == 0]. *)
Definition truediv (a b : Q) : result Q :=
  if Qeq_bool b 0 then Raise ZeroDivisionError else Ok (a / b)%Q.

(** Tuple equality [p == q]: component-wise value equality. *)
Definition point_eqb (p q : point) : bool :=
  Qeq_bool (fst p) (fst q) && Qeq_bool (snd p) (snd q).

(** ** Python built-ins on lists *)

(** [l[i]] for [0 <= i]. *)
Definition getitem {A : Type} (l : list A) (i : nat) : result A :=
  match nth_error l i with
  | Some a => Ok a
  | None => Raise IndexError
  end.

(** [range(a, b)]. *)
Definition range (a b : nat) : list nat := seq a (b - a).

(** ** [polyline_z_at] *)

(** The body of the [for i in range(1, len(points))] loop, over the
    indices still to visit; falling off the loop raises. *)
Fixpoint polyline_z_at_loop (points : list point) (x : Q) (idxs : list nat)
  : result Q :=
  match idxs with
  | [] => Raise ValueError_not_between
  | i :: idxs' =>
      '(x1, y1) <- getitem points (i - 1) ;;
      '(x2, y2) <- getitem points i ;;
      if Qle_bool x1 x && Qle_bool x x2 then
        q <- truediv (x - x1) (x2 - x1) ;;
        Ok (y1 + q * (y2 - y1))%Q
      else polyline_z_at_loop points x idxs'
  end.

Definition polyline_z_at (points : list point) (x : Q) : result Q :=
  polyline_z_at_loop points x (range 1 (length points)).

(** ** [min], [max], [sorted], [index], [in] and slices *)

(** [min(l)]: the first smallest item; an empty argument raises. *)
Definition py_min (l : list Q) : result Q :=
  match l with
  | [] => Raise ValueError_empty_arg
  | a :: l' => Ok (fold_left (fun m b => if Qlt_bool b m then b else m) l' a)
  end.

(** [max(l)]: the first largest item; an empty argument raises. *)
Definition py_max (l : list Q) : result Q :=
  match l with
  | [] => Raise ValueError_empty_arg
  | a :: l' => Ok (fold_left (fun m b => if Qlt_bool m b then b else m) l' a)
  end.

(** [sorted(l, key=key)] is a stable sort that compares keys with [<]:
    an item goes in front of the first later item whose key is not
    smaller than its own. *)
Fixpoint insert_by {A : Type} (key : A -> Q) (a : A) (l : list A) : list A :=
  match l with
  | [] => [a]
  | b :: l' =>
      if Qlt_bool (key b) (key a) then b :: insert_by key a l'
      else a :: b :: l'
  end.

Definition sorted {A : Type} (key : A -> Q) (l : list A) : list A :=
  fold_right (insert_by key) [] l.

(** [l.index(p)]: position of the first item equal to [p]. *)
Fixpoint index (l : list point) (p : point) : result nat :=
  match l with
  | [] => Raise ValueError_not_in_list
  | q :: l' =>
      if point_eqb q p then Ok 0%nat
      else i <- index l' p ;; Ok (S i)
  end.

(** [p in l]. *)
Definition contains (p : point) (l : list point) : bool :=
  existsb (fun q => point_eqb q p) l.

(** [l[-1]]. *)
Definition getitem_last {A : Type} (l : list A) : result A :=
  if (length l =? 0)%nat then Raise IndexError
  else getitem l (length l - 1).

(** [l[a:b]], [l[a:]] and [l[:b]] for [0 <= a] and [0 <= b]. *)
Definition slice {A : Type} (l : list A) (a b : nat) : list A :=
  firstn (b - a) (skipn a l).

Definition slice_from {A : Type} (l : list A) (a : nat) : list A := skipn a l.

Definition slice_to {A : Type} (l : list A) (b : nat) : list A := firstn b l.

(** ** [top_of_polygon] and [bottom_of_polygon] *)

Definition top_of_polygon (points : list point) : result (list point) :=
  left <- py_min (map fst points) ;;
  topleft_point <-
    getitem_last (sorted snd (filter (fun p => Qeq_bool (fst p) left) points)) ;;
  right <- py_max (map fst points) ;;
  topright_point <-
    getitem_last (sorted snd (filter (fun p => Qeq_bool (fst p) right) points)) ;;
  idx_left <- index points topleft_point ;;
  idx_right <- index points topright_point ;;
  if (idx_left <? idx_right)%nat then
    Ok (slice points idx_left (idx_right + 1))
  else
    Ok (slice_from points idx_left ++ slice_to points (idx_right + 1)).

Definition bottom_of_polygon (points : list point) : result (list point) :=
  left <- py_min (map fst points) ;;
  bottomleft_point <-
    getitem (sorted snd (filter (fun p => Qeq_bool (fst p) left) points)) 0 ;;
  right <- py_max (map fst points) ;;
  bottomright_point <-
    getitem (sorted snd (filter (fun p => Qeq_bool (fst p) right) points)) 0 ;;
  idx_left <- index points bottomleft_point ;;
  idx_right <- index points bottomright_point ;;
  let points' :=
    if (idx_right <? idx_left)%nat then
      slice points idx_right (idx_left + 1)
    else
      slice_from points idx_right ++ slice_to points (idx_left + 1) in
  Ok (rev points').

(** The bottom extraction as the specification words it: the run from
    the leftmost selected index to the rightmost one, wrapping when the
    rightmost index precedes the leftmost, then reversed.  Only compared
    with [bottom_of_polygon]; not a translation of the source. *)
Definition bottom_of_polygon_as_worded (points : list point)
  : result (list point) :=
  left <- py_min (map fst points) ;;
  bottomleft_point <-
    getitem (sorted snd (filter (fun p => Qeq_bool (fst p) left) points)) 0 ;;
  right <- py_max (map fst points) ;;
  bottomright_point <-
    getitem (sorted snd (filter (fun p => Qeq_bool (fst p) right) points)) 0 ;;
  idx_left <- index points bottomleft_point ;;
  idx_right <- index points bottomright_point ;;
  let run :=
    if (idx_right <? idx_left)%nat then
      slice_from points idx_left ++ slice_to points (idx_right + 1)
    else
      slice points idx_left (idx_right + 1) in
  Ok (rev run).

(** The clockwise unit square of the specification's example. *)
Definition unit_square : list point :=
  [(0, 0); (0, 1); (1, 1); (1, 0)]%Q.

(** A clockwise hexagon with two vertices on each vertical side. *)
Definition hexagon : list point :=
  [(0, 0); (0, 2); (3, 3); (5, 1); (5, -1); (2, -2)]%Q.

(** ** [polyline_polyline_intersections] *)

(** Modelled from the spec: the geometry objects of the [shapely] library,
    an external dependency.  Only what the function reads is kept: the
    type of the object, [is_empty], the points of a [MultiPoint]
    ([geoms], each with [x] and [y]) and the coordinate sequence of a
    [Point] or [LineString] ([coords]). *)
Inductive geometry : Type :=
| Point (coords : list point)
| MultiPoint (geoms : list point)
| LineString (coords : list point)
| MultiLineString (geoms : list (list point))
| GeometryCollection (geoms : list geometry).

Fixpoint is_empty (g : geometry) : bool :=
  match g with
  | Point coords => (length coords =? 0)%nat
  | MultiPoint geoms => (length geoms =? 0)%nat
  | LineString coords => (length coords =? 0)%nat
  | MultiLineString geoms => forallb (fun c => (length c =? 0)%nat) geoms
  | GeometryCollection geoms => forallb is_empty geoms
  end.

(** How the [if]/[elif] chain leaves: it falls through to the filter with
    the candidate list [result], or returns at once. *)
Inductive chain_exit : Type :=
| Fallthrough (result : list point)
| Return (value : list point).

Definition classify (intersections : geometry) : result chain_exit :=
  if is_empty intersections then Ok (Fallthrough [])
  else
    match intersections with
    | MultiPoint geoms => Ok (Fallthrough geoms)
    | Point coords =>
        c <- getitem coords 0 ;;
        Ok (Fallthrough [c])
    | LineString _ => Ok (Fallthrough [])
    | _ =>
        if is_empty intersections then Ok (Return [])
        else Raise ValueError_unimplemented_type
    end.

(** The comprehension's condition [not p in points_line1 or p in points_line2]. *)
Definition kept (points_line1 points_line2 : list point) (p : point) : bool :=
  negb (contains p points_line1) || contains p points_line2.

Section Intersections.

(** [LineString(points_line1).intersection(LineString(points_line2))],
    computed by [shapely]. *)
Variable intersection : list point -> list point -> geometry.

Definition polyline_polyline_intersections
  (points_line1 points_line2 : list point) : result (list point) :=
  let intersections := intersection points_line1 points_line2 in
  e <- classify intersections ;;
  match e with
  | Return value => Ok value
  | Fallthrough result =>
      let final_result := filter (kept points_line1 points_line2) result in
      if (length final_result =? 0)%nat then Ok []
      else Ok (sorted fst final_result)
  end.

End Intersections.

(** ** Vocabulary of the statements *)

(** The consecutive pair [points[j], points[j+1]] exists and brackets [x]. *)
Definition brackets_at (points : list point) (x : Q) (j : nat) : Prop :=
  exists p q, nth_error points j = Some p /\ nth_error points (S j) = Some q /\
              (fst p <= x)%Q /\ (x <= fst q)%Q.

(** Every consecutive pair goes strictly down in [x]. *)
Definition strictly_decreasing_x (points : list point) : Prop :=
  forall j p q, nth_error points j = Some p -> nth_error points (S j) = Some q ->
                (fst q < fst p)%Q.

(** Value equality of points, and "[p] equals some vertex of [l]". *)
Definition point_eq (p q : point) : Prop :=
  (fst p == fst q)%Q /\ (snd p == snd q)%Q.

Definition is_vertex_of (p : point) (l : list point) : Prop :=
  exists q, In q l /\ point_eq q p.

(** The discrete points an intersection geometry offers: the list
    [result] that the [if]/[elif] chain hands to the filter. *)
Definition candidates (g : geometry) : list point :=
  match g with
  | MultiPoint geoms => geoms
  | Point (c :: _) => [c]
  | _ => []
  end.

(** Ascending in [x]: every item's [x] is at most that of every later item. *)
Definition ascending_x (l : list point) : Prop :=
  StronglySorted (fun p q => (fst p <= fst q)%Q) l.

(** [b] is the vertex picked on the left: of least [x] and, among the
    vertices of that [x], of least [y]; likewise on the right. *)
Definition lowest_leftmost (points : list point) (b : point) : Prop :=
  In b points /\
  (forall p, In p points -> (fst b <= fst p)%Q) /\
  (forall p, In p points -> (fst p == fst b)%Q -> (snd b <= snd p)%Q).

Definition lowest_rightmost (points : list point) (b : point) : Prop :=
  In b points /\
  (forall p, In p points -> (fst p <= fst b)%Q) /\
  (forall p, In p points -> (fst p == fst b)%Q -> (snd b <= snd p)%Q).

(** [i] is the first position of [points] holding a point equal to [b]. *)
Definition first_index_of (points : list point) (b : point) (i : nat) : Prop :=
  (exists q, nth_error points i = Some q /\ point_eq q b) /\
  (forall j q, (j < i)%nat -> nth_error points j = Some q -> ~ point_eq q b).

(** [run] is the contiguous run of vertices going forward from index [a]
    to index [b], indices taken modulo the length: straight when [a < b],
    otherwise through the end of the list and on from its start. *)
Definition circular_run (points : list point) (a b : nat) (run : list point)
  : Prop :=
  let n := length points in
  let len := if (a <? b)%nat then (b - a + 1)%nat else (n - a + b + 1)%nat in
  length run = len /\
  forall k, (k < len)%nat -> nth_error run k = nth_error points ((a + k) mod n).

(** [p] is a vertex of least (greatest) [x]. *)
Definition has_min_x (points : list point) (p : point) : Prop :=
  In p points /\ forall q, In q points -> (fst p <= fst q)%Q.

Definition has_max_x (points : list point) (p : point) : Prop :=
  In p points /\ forall q, In q points -> (fst q <= fst p)%Q.

(** Sample answers of [shapely], as constant oracles.
    [two_crossings]: the segment [[(0,0),(4,0)]] against
    [[(3,1),(3,-1),(1,-1),(1,1)]], which cross at [(3,0)] and [(1,0)].
    [touch_at_vertex]: [[(0,0),(2,0),(4,0)]] against [[(2,-1),(2,1)]],
    which meet at the vertex [(2,0)] of the first line.
    [collinear_overlap]: [[(0,0),(2,0)]] against [[(1,0),(3,0)]].
    [overlap_and_crossing]: [[(0,0),(2,0),(2,2)]] against
    [[(1,0),(3,0),(3,1),(1,1)]]: a shared segment and a separate point. *)
Definition two_crossings (_ _ : list point) : geometry :=
  MultiPoint [(3, 0); (1, 0)]%Q.

Definition touch_at_vertex (_ _ : list point) : geometry :=
  Point [(2, 0)]%Q.

Definition collinear_overlap (_ _ : list point) : geometry :=
  LineString [(1, 0); (2, 0)]%Q.

Definition overlap_and_crossing (_ _ : list point) : geometry :=
  GeometryCollection [LineString [(1, 0); (2, 0)]%Q; Point [(2, 1)]%Q].

(** Every consecutive pair goes strictly up in [x]. *)
Definition strictly_increasing_x (points : list point) : Prop :=
  forall j p q, nth_error points j = Some p -> nth_error points (S j) = Some q ->
                (fst p < fst q)%Q.

(** [b] is the vertex picked on the left by [top_of_polygon]: of least [x]
    and, among the vertices of that [x], of greatest [y]; likewise on the
    right. *)
Definition highest_leftmost (points : list point) (b : point) : Prop :=
  In b points /\
  (forall p, In p points -> (fst b <= fst p)%Q) /\
  (forall p, In p points -> (fst p == fst b)%Q -> (snd p <= snd b)%Q).

Definition highest_rightmost (points : list point) (b : point) : Prop :=
  In b points /\
  (forall p, In p points -> (fst p <= fst b)%Q) /\
  (forall p, In p points -> (fst p == fst b)%Q -> (snd p <= snd b)%Q).

(** ** Strings

    A [str] is a list of characters; the model covers the characters of
    ASCII (code points below 128), on which [str.lower], [str.title] and
    the regular-expression classes [[A-Z]] and [[a-z]] act as below. *)

Definition str : Type := list Ascii.ascii.

Definition is_ascii7 (c : Ascii.ascii) : bool := (Ascii.N_of_ascii c <? 128)%N.

Definition ascii_only (s : str) : Prop := Forall (fun c => is_ascii7 c = true) s.

(** The classes [[A-Z]] and [[a-z]]. *)
Definition is_upper (c : Ascii.ascii) : bool :=
  ((65 <=? Ascii.N_of_ascii c) && (Ascii.N_of_ascii c <=? 90))%N.

Definition is_lower (c : Ascii.ascii) : bool :=
  ((97 <=? Ascii.N_of_ascii c) && (Ascii.N_of_ascii c <=? 122))%N.

(** A cased character: a letter. *)
Definition is_cased (c : Ascii.ascii) : bool := is_upper c || is_lower c.

Definition lower (c : Ascii.ascii) : Ascii.ascii :=
  if is_upper c then Ascii.ascii_of_N (Ascii.N_of_ascii c + 32) else c.

Definition upper (c : Ascii.ascii) : Ascii.ascii :=
  if is_lower c then Ascii.ascii_of_N (Ascii.N_of_ascii c - 32) else c.

Definition underscore : Ascii.ascii := "_"%char.

Definition newline : Ascii.ascii := "010"%char.

(** [s.lower()]. *)
Definition str_lower (s : str) : str := map lower s.

(** [s.title()]: a character that follows a cased character is lowered,
    any other is put in title case (upper case, in ASCII). *)
Fixpoint title_from (previous_is_cased : bool) (s : str) : str :=
  match s with
  | [] => []
  | c :: s' =>
      (if previous_is_cased then lower c else upper c)
        :: title_from (is_cased c) s'
  end.

Definition title (s : str) : str := title_from false s.

(** [s.split(sep)] for a one-character separator: always at least one
    item, empty items kept. *)
Fixpoint split (sep : Ascii.ascii) (s : str) : list str :=
  match s with
  | [] => [[]]
  | c :: s' =>
      if Ascii.eqb c sep then [] :: split sep s'
      else
        match split sep s' with
        | word :: words => (c :: word) :: words
        | [] => [[c]]
        end
  end.

(** ["".join(words)]. *)
Definition join_empty (words : list str) : str := concat words.

(** [s.count(c)] for a one-character [c]. *)
Definition count (c : Ascii.ascii) (s : str) : Z :=
  Z.of_nat (length (filter (Ascii.eqb c) s)).

(** ** [snake_to_camel] *)

Definition snake_to_camel (name : str) : str :=
  join_empty (map title (split underscore name)).

(** ** [camel_to_snake] *)

(** [re.sub("(.)([A-Z][a-z]+)", r"\1_\2", s)].  A match is a character
    other than a newline, an upper-case letter and the longest run of
    lower-case letters after it (at least one); it is replaced by itself
    with an underscore after its first character, and the search goes on
    after the match.  [in_match] tells that the scan is inside the run of
    lower-case letters of a match. *)
Fixpoint sub_char_word_from (in_match : bool) (s : str) : str :=
  match s with
  | [] => []
  | c :: s' =>
      if in_match && is_lower c then c :: sub_char_word_from true s'
      else
        match s' with
        | u :: l :: s'' =>
            if negb (Ascii.eqb c newline) && is_upper u && is_lower l then
              c :: underscore :: u :: l :: sub_char_word_from true s''
            else c :: sub_char_word_from false s'
        | _ => c :: sub_char_word_from false s'
        end
  end.

Definition sub_char_word (s : str) : str := sub_char_word_from false s.

(** [_CAMEL_TO_SNAKE_PATTERN.sub("_", s)] with the pattern
    [(?<!^)(?=[A-Z])]: an underscore goes in front of every upper-case
    letter that is not the first character. *)
Definition CAMEL_TO_SNAKE_PATTERN_sub (s : str) : str :=
  match s with
  | [] => []
  | c :: s' =>
      c :: flat_map (fun d => if is_upper d then [underscore; d] else [d]) s'
  end.

Definition camel_to_snake (name : str) : str :=
  let name := sub_char_word name in
  str_lower (CAMEL_TO_SNAKE_PATTERN_sub name).

(** ** [make_newline_validator]: the validator it builds *)

(** The records [logger.warning] receives. *)
Inductive log_record : Type :=
| Warning_added (lines : Z)
    (* "Added {lines} lines to run_identification." *)
| Warning_more_than (lines : Z).
    (* "More than {lines} lines in run_identification will be ignored in the GUI." *)

(** The inner function, with [req_newlines] of the enclosing call; it
    returns the records logged and the value. *)
Definition field_must_contain_newlines (req_newlines : Z) (v : str)
  : list log_record * str :=
  let newlines := count newline v in
  if (newlines <? req_newlines)%Z then
    ([Warning_added (req_newlines - newlines)],
     v ++ repeat newline (Z.to_nat (req_newlines - newlines)))
  else if (req_newlines <? newlines)%Z then
    ([Warning_more_than (req_newlines + 1)], v)
  else ([], v).

(** ** Vocabulary of the statements on strings *)

Delimit Scope string_scope with string.

(** A string literal as a [str]. *)
Definition of_string (s : String.string) : str := String.list_ascii_of_string s.

(** [s] without its underscores. *)
Definition drop_underscores (s : str) : str :=
  filter (fun c => negb (Ascii.eqb c underscore)) s.

(** What the second substitution and the lowering make of one character
    that is not the first. *)
Definition underscored_lower (c : ascii) : str :=
  if is_upper c then [underscore; lower c] else [lower c].

(** An upper-case letter followed by lower-case letters. *)
Definition capitalised (w : str) : Prop :=
  match w with
  | [] => False
  | c :: w' => is_upper c = true /\ Forall (fun d => is_lower d = true) w'
  end.

Definition no_upper (s : str) : Prop := Forall (fun c => is_upper c = false) s.

Definition all_lower (s : str) : Prop := Forall (fun c => is_lower c = true) s.

(** Only letters; and: the first character, if any, is an upper-case
    letter. *)
Definition letters_only (s : str) : Prop :=
  Forall (fun c => is_cased c = true) s.

Definition starts_upper (s : str) : Prop :=
  match s with
  | [] => True
  | c :: _ => is_upper c = true
  end.

(** ** [polyline_z_at] on IEEE doubles

    The same function with the coordinates as the binary64 floats of
    Python, infinities and NaN included.  It serves to evaluate the code
    where the exact numbers above cannot follow it. *)

Definition float_point : Type := (PrimFloat.float * PrimFloat.float)%type.

(** [a / b] on built-in floats: [ZeroDivisionError] when [b == 0.0], the
    IEEE quotient otherwise (a NaN divisor is not zero). *)
Definition float_truediv (a b : PrimFloat.float) : result PrimFloat.float :=
  if PrimFloat.eqb b PrimFloat.zero then Raise ZeroDivisionError
  else Ok (PrimFloat.div a b).

Fixpoint polyline_z_at_loop_float
  (points : list float_point) (x : PrimFloat.float) (idxs : list nat)
  : result PrimFloat.float :=
  match idxs with
  | [] => Raise ValueError_not_between
  | i :: idxs' =>
      '(x1, y1) <- getitem points (i - 1) ;;
      '(x2, y2) <- getitem points i ;;
      if PrimFloat.leb x1 x && PrimFloat.leb x x2 then
        q <- float_truediv (PrimFloat.sub x x1) (PrimFloat.sub x2 x1) ;;
        Ok (PrimFloat.add y1 (PrimFloat.mul q (PrimFloat.sub y2 y1)))
      else polyline_z_at_loop_float points x idxs'
  end.

Definition polyline_z_at_float
  (points : list float_point) (x : PrimFloat.float) : result PrimFloat.float :=
  polyline_z_at_loop_float points x (range 1 (length points)).

(** ** [polyline_polyline_intersections] with the errors of [shapely]

    [LineString(points)] and [intersection] may raise inside [shapely]
    (a one-point list is refused, for instance); such an exception leaves
    the function at once.  [shapely] here answers [None] when it raises. *)
Inductive call_outcome : Type :=
| Shapely_raises
| Completes (r : result (list point)).

Definition polyline_polyline_intersections_call
  (shapely : list point -> list point -> option geometry)
  (points_line1 points_line2 : list point) : call_outcome :=
  match shapely points_line1 points_line2 with
  | None => Shapely_raises
  | Some intersections =>
      Completes (polyline_polyline_intersections
                   (fun _ _ => intersections) points_line1 points_line2)
  end.

(** * Properties *)

(** ** Results *)

Lemma bind_Ok {A B : Type} (a : A) (k : A -> result B) : bind (Ok a) k = k a.
Proof. reflexivity. Qed.

Lemma getitem_Some {A : Type} {l : list A} {i : nat} {a : A} :
  nth_error l i = Some a -> getitem l i = Ok a.
Proof. unfold getitem. intros ->. reflexivity. Qed.

Lemma getitem_lt {A : Type} (l : list A) (i : nat) :
  (i < length l)%nat -> exists a, nth_error l i = Some a /\ getitem l i = Ok a.
Proof.
  intros Hi. destruct (nth_error l i) as [a|] eqn:E.
  - exists a. split; [reflexivity | now apply getitem_Some].
  - apply nth_error_None in E. lia.
Qed.

(** ** [polyline_z_at] *)

Section PolylineZAt.

Variable points : list point.
Variable x : Q.

Lemma not_brackets_test {j : nat} {p q : point} :
  nth_error points j = Some p -> nth_error points (S j) = Some q ->
  ~ brackets_at points x j ->
  Qle_bool (fst p) x && Qle_bool x (fst q) = false.
Proof.
  intros Hp Hq Hn.
  destruct (Qle_bool (fst p) x && Qle_bool x (fst q)) eqn:E; [|reflexivity].
  apply andb_true_iff in E. destruct E as [E1 E2].
  apply Qle_bool_iff in E1, E2.
  exfalso. apply Hn. exists p, q. auto.
Qed.

(** One turn of the loop at index [S j]. *)
Lemma polyline_z_at_loop_step {j : nat} {x1 y1 x2 y2 : Q} (rest : list nat) :
  nth_error points j = Some (x1, y1) ->
  nth_error points (S j) = Some (x2, y2) ->
  polyline_z_at_loop points x (S j :: rest) =
  if Qle_bool x1 x && Qle_bool x x2 then
    q <- truediv (x - x1) (x2 - x1) ;; Ok (y1 + q * (y2 - y1))%Q
  else polyline_z_at_loop points x rest.
Proof.
  intros H1 H2. cbn [polyline_z_at_loop].
  replace (S j - 1)%nat with j by lia.
  rewrite (getitem_Some H1), bind_Ok.
  rewrite (getitem_Some H2), bind_Ok.
  reflexivity.
Qed.

(** Indices whose pairs do not bracket [x] are passed over. *)
Lemma polyline_z_at_loop_skip (rest : list nat) :
  forall n a,
    (a + n < length points)%nat ->
    (forall j, (a <= j < a + n)%nat -> ~ brackets_at points x j) ->
    polyline_z_at_loop points x (seq (S a) n ++ rest) =
    polyline_z_at_loop points x rest.
Proof.
  induction n as [|n IH]; intros a Hlen Hno; [reflexivity|].
  destruct (getitem_lt points a) as [[x1 y1] [H1 _]]; [lia|].
  destruct (getitem_lt points (S a)) as [[x2 y2] [H2 _]]; [lia|].
  cbn [seq app].
  rewrite (polyline_z_at_loop_step _ H1 H2).
  assert (E : Qle_bool x1 x && Qle_bool x x2 = false)
    by (apply (not_brackets_test H1 H2), Hno; lia).
  rewrite E.
  apply IH; [lia|]. intros j Hj. apply Hno. lia.
Qed.

Lemma range_split (i : nat) :
  (S i < length points)%nat ->
  range 1 (length points) =
  seq 1 i ++ S i :: seq (S (S i)) (length points - S (S i)).
Proof.
  intros Hi. unfold range.
  replace (length points - 1)%nat with (i + S (length points - S (S i)))%nat
    by lia.
  rewrite seq_app. reflexivity.
Qed.

(** What the call does at the first bracketing pair. *)
Lemma polyline_z_at_first_bracket {i : nat} {x1 y1 x2 y2 : Q} :
  nth_error points i = Some (x1, y1) ->
  nth_error points (S i) = Some (x2, y2) ->
  (forall j, (j < i)%nat -> ~ brackets_at points x j) ->
  (x1 <= x)%Q -> (x <= x2)%Q ->
  polyline_z_at points x =
  (q <- truediv (x - x1) (x2 - x1) ;; Ok (y1 + q * (y2 - y1))%Q).
Proof.
  intros H1 H2 Hno Hle1 Hle2.
  assert (Hi : (S i < length points)%nat)
    by (apply nth_error_Some; rewrite H2; discriminate).
  unfold polyline_z_at. rewrite (range_split i Hi).
  rewrite polyline_z_at_loop_skip.
  - rewrite (polyline_z_at_loop_step _ H1 H2).
    apply Qle_bool_iff in Hle1, Hle2. rewrite Hle1, Hle2. reflexivity.
  - lia.
  - intros j Hj. apply Hno. lia.
Qed.

Lemma polyline_z_at_no_bracket :
  (forall j, ~ brackets_at points x j) ->
  polyline_z_at points x = Raise ValueError_not_between.
Proof.
  intros Hno. unfold polyline_z_at, range.
  destruct (length points) as [|n] eqn:En; [reflexivity|].
  rewrite <- (app_nil_r (seq 1 (S n - 1))).
  apply polyline_z_at_loop_skip; [lia|]. intros j _. apply Hno.
Qed.

End PolylineZAt.

Lemma truediv_zero (a b : Q) : (b == 0)%Q -> truediv a b = Raise ZeroDivisionError.
Proof. intros H. unfold truediv. apply Qeq_bool_iff in H. now rewrite H. Qed.

Lemma truediv_nonzero (a b : Q) : ~ (b == 0)%Q -> truediv a b = Ok (a / b)%Q.
Proof.
  intros H. unfold truediv.
  destruct (Qeq_bool b 0) eqn:E; [|reflexivity].
  apply Qeq_bool_iff in E. contradiction.
Qed.




(** On finite doubles the division stops the same call: the vertical
    pair [(1.0, 1.0)], [(1.0, 2.0)] of [[(2.0, 0.0), (1.0, 1.0), (1.0, 2.0)]]
    at [x = 1.0]. *)
Example polyline_z_at_float_vertical_finite :
  polyline_z_at_float
    [(PrimFloat.two, PrimFloat.zero); (PrimFloat.one, PrimFloat.one);
     (PrimFloat.one, PrimFloat.two)]
    PrimFloat.one = Raise ZeroDivisionError.
Proof. vm_compute. reflexivity. Qed.

(** C7: at the first consecutive pair [(x1,y1)], [(x2,y2)] in sequence
    order with [x1 <= x <= x2] and [x1 != x2], the call returns exactly
    [y1 + (x - x1) / (x2 - x1) * (y2 - y1)]; on [[(0,0),(10,10)]] at
    [x = 5] it returns a number equal to 5. *)
Theorem polyline_z_at_interpolates :
  (forall (points : list point) (x : Q) (i : nat) (x1 y1 x2 y2 : Q),
      nth_error points i = Some (x1, y1) ->
      nth_error points (S i) = Some (x2, y2) ->
      (forall j, (j < i)%nat -> ~ brackets_at points x j) ->
      (x1 <= x)%Q -> (x <= x2)%Q ->
      ~ (x1 == x2)%Q ->
      polyline_z_at points x = Ok (y1 + (x - x1) / (x2 - x1) * (y2 - y1))%Q) /\
  (exists z, polyline_z_at [(0, 0); (10, 10)]%Q 5 = Ok z /\ (z == 5)%Q).
Proof.
  split.
  - intros points x i x1 y1 x2 y2 H1 H2 Hno Hle1 Hle2 Hne.
    rewrite (polyline_z_at_first_bracket points x H1 H2 Hno Hle1 Hle2).
    rewrite truediv_nonzero; [reflexivity|].
    intros H0. apply Hne.
    setoid_replace x1 with (x2 - (x2 - x1))%Q by ring.
    rewrite H0. ring.
  - eexists. split; [vm_compute; reflexivity | reflexivity].
Qed.

Lemma polyline_z_at_interpolates_witness :
  polyline_z_at [(0, 3); (4, 1); (2, 2); (6, 10)]%Q 5 =
  Ok (2 + (5 - 2) / (6 - 2) * (10 - 2))%Q.
Proof.
  apply (proj1 polyline_z_at_interpolates
           [(0, 3); (4, 1); (2, 2); (6, 10)]%Q 5%Q 2%nat 2%Q 2%Q 6%Q 10%Q).
  - reflexivity.
  - reflexivity.
  - intros j Hj [p [q [Hp [Hq [Hpx Hxq]]]]].
    destruct j as [|[|j]]; [| |lia].
    + injection Hq as <-. unfold Qle in Hxq. simpl in Hxq. lia.
    + injection Hp as <-. injection Hq as <-.
      unfold Qle in Hxq. simpl in Hxq. lia.
  - unfold Qle; simpl; lia.
  - unfold Qle; simpl; lia.
  - unfold Qeq; simpl; lia.
Defined.

(** C8: when no consecutive pair brackets [x] the call raises the
    "not between" error and returns no value; so it does on
    [[(0,0),(10,10)]] at [x = 15], and on every polyline whose [x]
    goes strictly down, whatever [x] is (inside the extent or not). *)
Theorem polyline_z_at_out_of_range :
  (forall (points : list point) (x : Q),
      (forall j, ~ brackets_at points x j) ->
      polyline_z_at points x = Raise ValueError_not_between) /\
  polyline_z_at [(0, 0); (10, 10)]%Q 15 = Raise ValueError_not_between /\
  (forall (points : list point) (x : Q),
      strictly_decreasing_x points ->
      polyline_z_at points x = Raise ValueError_not_between).
Proof.
  split; [exact polyline_z_at_no_bracket|].
  split; [reflexivity|].
  intros points x Hdec. apply polyline_z_at_no_bracket.
  intros j [p [q [Hp [Hq [Hpx Hxq]]]]].
  specialize (Hdec j p q Hp Hq).
  apply (Qlt_irrefl (fst q)).
  apply Qlt_le_trans with (fst p); [exact Hdec|].
  apply Qle_trans with x; assumption.
Qed.

Lemma polyline_z_at_out_of_range_witness :
  polyline_z_at [(0, 0); (4, 4); (2, 6)]%Q 5 = Raise ValueError_not_between /\
  polyline_z_at [(10, 10); (5, 2); (0, 0)]%Q 5 = Raise ValueError_not_between.
Proof.
  split.
  - apply (proj1 polyline_z_at_out_of_range [(0, 0); (4, 4); (2, 6)]%Q 5%Q).
    intros j [p [q [Hp [Hq [Hpx Hxq]]]]].
    destruct j as [|[|j]].
    + injection Hq as <-. unfold Qle in Hxq. simpl in Hxq. lia.
    + injection Hq as <-. unfold Qle in Hxq. simpl in Hxq. lia.
    + destruct j; discriminate Hq.
  - apply (proj2 (proj2 polyline_z_at_out_of_range)
             [(10, 10); (5, 2); (0, 0)]%Q 5%Q).
    intros j p q Hp Hq.
    destruct j as [|[|j]].
    + injection Hp as <-. injection Hq as <-. reflexivity.
    + injection Hp as <-. injection Hq as <-. reflexivity.
    + destruct j; discriminate Hq.
Defined.

(** C10: with fewer than two points (none, or a single one) the call
    raises the "not between" error for every [x], also when the single
    point's x-coordinate equals [x]. *)
Theorem polyline_z_at_short_list :
  forall (points : list point) (x : Q),
    (length points < 2)%nat ->
    polyline_z_at points x = Raise ValueError_not_between.
Proof.
  intros points x Hlen.
  destruct points as [|p [|q points]]; [reflexivity | reflexivity |].
  simpl in Hlen. lia.
Qed.

Lemma polyline_z_at_short_list_witness :
  polyline_z_at [(3, 7)]%Q 3 = Raise ValueError_not_between.
Proof.
  apply (polyline_z_at_short_list [(3, 7)]%Q 3%Q). simpl. lia.
Defined.

(** ** [sorted] *)

Lemma Qlt_bool_true (a b : Q) : Qlt_bool a b = true -> (a < b)%Q.
Proof.
  unfold Qlt_bool. intros H. apply negb_true_iff in H.
  apply Qnot_le_lt. intros Hle. apply Qle_bool_iff in Hle. congruence.
Qed.

Lemma Qlt_bool_false (a b : Q) : Qlt_bool a b = false -> (b <= a)%Q.
Proof.
  unfold Qlt_bool. intros H. apply negb_false_iff in H.
  now apply Qle_bool_iff.
Qed.

Section Sorted.

Context {A : Type}.
Variable key : A -> Q.

Let key_le (a b : A) : Prop := (key a <= key b)%Q.

Lemma insert_by_perm (a : A) (l : list A) :
  Permutation (insert_by key a l) (a :: l).
Proof.
  induction l as [|b l IH]; simpl; [reflexivity|].
  destruct (Qlt_bool (key b) (key a)); [|reflexivity].
  rewrite IH. apply perm_swap.
Qed.

Lemma sorted_perm (l : list A) : Permutation (sorted key l) l.
Proof.
  induction l as [|a l IH]; simpl; [reflexivity|].
  rewrite insert_by_perm. now apply perm_skip.
Qed.

Lemma sorted_In (l : list A) (a : A) : In a (sorted key l) <-> In a l.
Proof.
  split; apply Permutation_in;
    [apply sorted_perm | apply Permutation_sym, sorted_perm].
Qed.

Lemma insert_by_sorted (a : A) (l : list A) :
  StronglySorted key_le l -> StronglySorted key_le (insert_by key a l).
Proof.
  induction 1 as [|b l Hl IH Hb]; simpl.
  - constructor; constructor.
  - destruct (Qlt_bool (key b) (key a)) eqn:E.
    + constructor; [exact IH|].
      apply Forall_forall. intros c Hc.
      apply (Permutation_in _ (insert_by_perm a l)) in Hc.
      destruct Hc as [<- | Hc].
      * apply Qlt_le_weak, Qlt_bool_true, E.
      * rewrite Forall_forall in Hb. now apply Hb.
    + apply Qlt_bool_false in E.
      constructor; [constructor; assumption|].
      constructor; [exact E|].
      apply Forall_forall. intros c Hc.
      rewrite Forall_forall in Hb.
      apply Qle_trans with (key b); [exact E | now apply Hb].
Qed.

Lemma sorted_sorted (l : list A) : StronglySorted key_le (sorted key l).
Proof.
  induction l as [|a l IH]; simpl; [constructor|].
  now apply insert_by_sorted.
Qed.

End Sorted.

(** ** [polyline_polyline_intersections] *)

Lemma point_eqb_iff (p q : point) : point_eqb p q = true <-> point_eq p q.
Proof.
  unfold point_eqb, point_eq.
  rewrite andb_true_iff, !Qeq_bool_iff. reflexivity.
Qed.

Lemma contains_iff (p : point) (l : list point) :
  contains p l = true <-> is_vertex_of p l.
Proof.
  unfold contains, is_vertex_of. rewrite existsb_exists.
  split; intros [q [Hq E]]; exists q; (split; [exact Hq|]);
    now apply point_eqb_iff.
Qed.

Lemma kept_iff (l1 l2 : list point) (p : point) :
  kept l1 l2 p = true <-> ~ is_vertex_of p l1 \/ is_vertex_of p l2.
Proof.
  unfold kept. rewrite orb_true_iff, negb_true_iff, <- !contains_iff.
  destruct (contains p l1); intuition congruence.
Qed.

(** The chain never takes its second [is_empty] branch: when it does not
    raise it falls through with the candidate points. *)
Lemma classify_Ok (g : geometry) (e : chain_exit) :
  classify g = Ok e -> e = Fallthrough (candidates g).
Proof.
  unfold classify. destruct (is_empty g) eqn:E.
  - intros [= <-]. f_equal.
    destruct g as [[|c cs]|[|c cs]| | |]; simpl in *;
      reflexivity || discriminate.
  - destruct g as [[|c cs]| | | |]; simpl; try discriminate;
      now intros [= <-].
Qed.

Lemma classify_supported (g : geometry) :
  is_empty g = true \/
  (exists c, g = Point c) \/ (exists c, g = MultiPoint c) \/
  (exists c, g = LineString c) ->
  classify g = Ok (Fallthrough (candidates g)).
Proof.
  unfold classify. destruct (is_empty g) eqn:E.
  - intros _. f_equal. f_equal.
    destruct g as [[|c cs]|[|c cs]| | |]; simpl in *;
      reflexivity || discriminate.
  - intros [H | [[c ->] | [[c ->] | [c ->]]]]; [discriminate| | |];
      try reflexivity.
    destruct c; [discriminate | reflexivity].
Qed.

Section IntersectionFacts.

Variable intersection : list point -> list point -> geometry.
Variables points_line1 points_line2 : list point.

Let final_result : list point :=
  filter (kept points_line1 points_line2)
         (candidates (intersection points_line1 points_line2)).

Lemma intersections_Ok (out : list point) :
  polyline_polyline_intersections intersection points_line1 points_line2
  = Ok out ->
  out = sorted fst final_result.
Proof.
  unfold polyline_polyline_intersections.
  destruct (classify (intersection points_line1 points_line2)) as [e|err]
    eqn:E; [|discriminate].
  apply classify_Ok in E. subst e. rewrite bind_Ok.
  fold final_result.
  destruct final_result as [|p l]; simpl; now intros [= <-].
Qed.

Lemma intersections_supported :
  classify (intersection points_line1 points_line2)
  = Ok (Fallthrough (candidates (intersection points_line1 points_line2))) ->
  polyline_polyline_intersections intersection points_line1 points_line2
  = Ok (sorted fst final_result).
Proof.
  unfold polyline_polyline_intersections. intros ->. rewrite bind_Ok.
  fold final_result. destruct final_result; reflexivity.
Qed.

End IntersectionFacts.

(** C3: a candidate point of the intersection is in the output exactly
    when it equals no vertex of line1 or equals some vertex of line2:
    the points dropped are those that coincide with a vertex of line1
    only.  The two inputs are not treated alike: a crossing at a vertex of
    one line only is dropped when that line comes first and kept when it
    comes second. *)
Theorem intersections_filter :
  (forall (intersection : list point -> list point -> geometry)
          (points_line1 points_line2 out : list point),
      polyline_polyline_intersections intersection points_line1 points_line2
      = Ok out ->
      forall p : point,
        In p out <->
        In p (candidates (intersection points_line1 points_line2)) /\
        (~ is_vertex_of p points_line1 \/ is_vertex_of p points_line2)) /\
  (polyline_polyline_intersections touch_at_vertex
     [(0, 0); (2, 0); (4, 0)]%Q [(2, -1); (2, 1)]%Q = Ok [] /\
   polyline_polyline_intersections touch_at_vertex
     [(2, -1); (2, 1)]%Q [(0, 0); (2, 0); (4, 0)]%Q = Ok [(2, 0)]%Q).
Proof.
  split; [|split; reflexivity].
  intros intersection l1 l2 out H p.
  apply intersections_Ok in H. subst out.
  rewrite sorted_In, filter_In, kept_iff. reflexivity.
Qed.

Lemma intersections_filter_witness :
  In (2, 0)%Q [] <->
  In (2, 0)%Q [(2, 0)]%Q /\
  (~ is_vertex_of (2, 0)%Q [(0, 0); (2, 0); (4, 0)]%Q \/
   is_vertex_of (2, 0)%Q [(2, -1); (2, 1)]%Q).
Proof.
  apply (proj1 intersections_filter touch_at_vertex
           [(0, 0); (2, 0); (4, 0)]%Q [(2, -1); (2, 1)]%Q []).
  reflexivity.
Defined.

(** C4: the returned sequence is in ascending order of [x]. *)
Theorem intersections_ascending :
  forall (intersection : list point -> list point -> geometry)
         (points_line1 points_line2 out : list point),
    polyline_polyline_intersections intersection points_line1 points_line2
    = Ok out ->
    ascending_x out.
Proof.
  intros intersection l1 l2 out H.
  apply intersections_Ok in H. subst out.
  apply sorted_sorted.
Qed.

Lemma intersections_ascending_witness :
  ascending_x [(1, 0); (3, 0)]%Q.
Proof.
  apply (intersections_ascending two_crossings
           [(0, 0); (4, 0)]%Q [(3, 1); (3, -1); (1, -1); (1, 1)]%Q
           [(1, 0); (3, 0)]%Q).
  reflexivity.
Defined.

(** C5: when the intersection is a line string (an overlapping collinear
    segment) the function returns the empty sequence. *)
Theorem intersections_overlap_empty :
  forall (intersection : list point -> list point -> geometry)
         (points_line1 points_line2 coords : list point),
    intersection points_line1 points_line2 = LineString coords ->
    polyline_polyline_intersections intersection points_line1 points_line2
    = Ok [].
Proof.
  intros intersection l1 l2 coords H.
  rewrite intersections_supported; rewrite H.
  - reflexivity.
  - apply classify_supported. right. right. right. now exists coords.
Qed.

Lemma intersections_overlap_empty_witness :
  polyline_polyline_intersections collinear_overlap
    [(0, 0); (2, 0)]%Q [(1, 0); (3, 0)]%Q = Ok [].
Proof.
  apply (intersections_overlap_empty collinear_overlap
           [(0, 0); (2, 0)]%Q [(1, 0); (3, 0)]%Q [(1, 0); (2, 0)]%Q).
  reflexivity.
Defined.

(** C6: when the intersection is not empty and is neither a point, nor a
    multi-point, nor a line string, the function raises the
    "unimplemented intersection type" error and returns no sequence. *)
Theorem intersections_unsupported_raises :
  forall (intersection : list point -> list point -> geometry)
         (points_line1 points_line2 : list point),
    let g := intersection points_line1 points_line2 in
    is_empty g = false ->
    (forall c, g <> Point c) ->
    (forall c, g <> MultiPoint c) ->
    (forall c, g <> LineString c) ->
    polyline_polyline_intersections intersection points_line1 points_line2
    = Raise ValueError_unimplemented_type /\
    (forall out,
        polyline_polyline_intersections intersection points_line1 points_line2
        <> Ok out).
Proof.
  intros intersection l1 l2 g Hne HP HM HL.
  assert (E : polyline_polyline_intersections intersection l1 l2
              = Raise ValueError_unimplemented_type).
  { unfold polyline_polyline_intersections, classify. fold g. rewrite Hne.
    destruct g as [c|c|c|c|c]; try reflexivity.
    - now destruct (HP c).
    - now destruct (HM c).
    - now destruct (HL c). }
  split; [exact E|]. intros out. rewrite E. discriminate.
Qed.

Lemma intersections_unsupported_raises_witness :
  polyline_polyline_intersections overlap_and_crossing
    [(0, 0); (2, 0); (2, 2)]%Q [(1, 0); (3, 0); (3, 1); (1, 1)]%Q
  = Raise ValueError_unimplemented_type /\
  (forall out,
      polyline_polyline_intersections overlap_and_crossing
        [(0, 0); (2, 0); (2, 2)]%Q [(1, 0); (3, 0); (3, 1); (1, 1)]%Q
      <> Ok out).
Proof.
  apply (intersections_unsupported_raises overlap_and_crossing
           [(0, 0); (2, 0); (2, 2)]%Q [(1, 0); (3, 0); (3, 1); (1, 1)]%Q).
  - reflexivity.
  - discriminate.
  - discriminate.
  - discriminate.
Defined.

(** ** [min], [max] and the selection of the corner vertices *)

Lemma fold_min (l : list Q) :
  forall a : Q,
    let m := fold_left (fun m b => if Qlt_bool b m then b else m) l a in
    In m (a :: l) /\ forall b, In b (a :: l) -> (m <= b)%Q.
Proof.
  induction l as [|c l IH]; intros a; cbn [fold_left].
  - split; [now left|]. intros b [<- | []]. apply Qle_refl.
  - destruct (IH (if Qlt_bool c a then c else a)) as [Hin Hle].
    split.
    + destruct Hin as [Hin | Hin]; [|now right; right].
      rewrite <- Hin. destruct (Qlt_bool c a); [right; now left | now left].
    + intros b Hb.
      assert (Hstep : forall d, d = a \/ d = c ->
                ((if Qlt_bool c a then c else a) <= d)%Q).
      { intros d [-> | ->]; destruct (Qlt_bool c a) eqn:E;
          try apply Qle_refl.
        - now apply Qlt_le_weak, Qlt_bool_true.
        - now apply Qlt_bool_false. }
      destruct Hb as [<- | [<- | Hb]].
      * eapply Qle_trans; [apply Hle; now left | apply Hstep; now left].
      * eapply Qle_trans; [apply Hle; now left | apply Hstep; now right].
      * apply Hle. now right.
Qed.

Lemma fold_max (l : list Q) :
  forall a : Q,
    let m := fold_left (fun m b => if Qlt_bool m b then b else m) l a in
    In m (a :: l) /\ forall b, In b (a :: l) -> (b <= m)%Q.
Proof.
  induction l as [|c l IH]; intros a; cbn [fold_left].
  - split; [now left|]. intros b [<- | []]. apply Qle_refl.
  - destruct (IH (if Qlt_bool a c then c else a)) as [Hin Hle].
    split.
    + destruct Hin as [Hin | Hin]; [|now right; right].
      rewrite <- Hin. destruct (Qlt_bool a c); [right; now left | now left].
    + intros b Hb.
      assert (Hstep : forall d, d = a \/ d = c ->
                (d <= (if Qlt_bool a c then c else a))%Q).
      { intros d [-> | ->]; destruct (Qlt_bool a c) eqn:E;
          try apply Qle_refl.
        - now apply Qlt_le_weak, Qlt_bool_true.
        - now apply Qlt_bool_false. }
      destruct Hb as [<- | [<- | Hb]].
      * eapply Qle_trans; [apply Hstep; now left | apply Hle; now left].
      * eapply Qle_trans; [apply Hstep; now right | apply Hle; now left].
      * apply Hle. now right.
Qed.

Lemma py_min_spec (l : list Q) :
  l <> [] ->
  exists m, py_min l = Ok m /\ In m l /\ forall b, In b l -> (m <= b)%Q.
Proof.
  destruct l as [|a l]; [congruence|]. intros _.
  eexists. split; [reflexivity|]. apply fold_min.
Qed.

Lemma py_max_spec (l : list Q) :
  l <> [] ->
  exists m, py_max l = Ok m /\ In m l /\ forall b, In b l -> (b <= m)%Q.
Proof.
  destruct l as [|a l]; [congruence|]. intros _.
  eexists. split; [reflexivity|]. apply fold_max.
Qed.

(** [sorted(..., key=y)[0]] over the vertices whose [x] equals [m]. *)
Lemma select_lowest (points : list point) (m : Q) :
  In m (map fst points) ->
  exists b,
    getitem (sorted snd (filter (fun p => Qeq_bool (fst p) m) points)) 0 = Ok b /\
    In b points /\ (fst b == m)%Q /\
    forall p, In p points -> (fst p == m)%Q -> (snd b <= snd p)%Q.
Proof.
  intros Hm. apply in_map_iff in Hm. destruct Hm as [p0 [Hp0 Hin0]].
  set (F := filter (fun p => Qeq_bool (fst p) m) points).
  assert (HF : forall p, In p F <-> In p points /\ (fst p == m)%Q).
  { intros p. unfold F. rewrite filter_In, Qeq_bool_iff. reflexivity. }
  assert (Hp0F : In p0 (sorted snd F)).
  { apply sorted_In, HF. split; [exact Hin0|]. rewrite Hp0. reflexivity. }
  pose proof (sorted_sorted snd F) as Hs.
  pose proof (sorted_In snd F) as HI.
  destruct (sorted snd F) as [|b s]; [contradiction|].
  exists b. split; [reflexivity|].
  assert (Hb : In b points /\ (fst b == m)%Q) by (apply HF, HI; now left).
  split; [apply Hb|]. split; [apply Hb|].
  intros p Hp Hpm.
  assert (Hps : In p (b :: s)) by (apply HI, HF; now split).
  destruct Hps as [<- | Hps]; [apply Qle_refl|].
  apply StronglySorted_inv in Hs. destruct Hs as [_ Hall].
  rewrite Forall_forall in Hall. now apply Hall.
Qed.

Lemma point_eq_refl (p : point) : point_eq p p.
Proof. split; reflexivity. Qed.

Lemma index_spec (points : list point) (b : point) :
  In b points ->
  exists i, index points b = Ok i /\ first_index_of points b i.
Proof.
  induction points as [|q points IH]; [contradiction|].
  intros Hin. cbn [index].
  destruct (point_eqb q b) eqn:E.
  - exists 0%nat. split; [reflexivity|]. split.
    + exists q. split; [reflexivity | now apply point_eqb_iff].
    + intros j q' Hj. lia.
  - assert (Hin' : In b points).
    { destruct Hin as [-> | Hin]; [|exact Hin].
      assert (point_eqb b b = true) by apply point_eqb_iff, point_eq_refl.
      congruence. }
    destruct (IH Hin') as [i [Hi [Hat Hbefore]]].
    exists (S i). rewrite Hi. split; [reflexivity|]. split.
    + exact Hat.
    + intros [|j] q' Hj Hq'.
      * injection Hq' as <-. intros Heq.
        apply point_eqb_iff in Heq. congruence.
      * apply (Hbefore j); [lia | exact Hq'].
Qed.

(** ** The run between the two selected indices *)

Section Run.

Variable points : list point.
Variables a b : nat.
Hypothesis Ha : (a < length points)%nat.
Hypothesis Hb : (b < length points)%nat.

(** The list the [if idx_left > idx_right] statement of
    [bottom_of_polygon] builds, with [a] for [idx_right] and [b] for
    [idx_left]. *)
Let extracted : list point :=
  if (a <? b)%nat then slice points a (b + 1)
  else slice_from points a ++ slice_to points (b + 1).

Lemma extracted_circular_run : circular_run points a b extracted.
Proof.
  unfold circular_run, extracted, slice, slice_from, slice_to.
  destruct (Nat.ltb_spec a b) as [Hab | Hab].
  - split.
    + rewrite length_firstn, length_skipn. lia.
    + intros k Hk. rewrite nth_error_firstn, nth_error_skipn.
      replace (k <? b + 1 - a)%nat with true
        by (symmetry; apply Nat.ltb_lt; lia).
      rewrite Nat.mod_small by lia. reflexivity.
  - split.
    + rewrite length_app, length_firstn, length_skipn. lia.
    + intros k Hk. rewrite nth_error_app, length_skipn.
      destruct (Nat.ltb_spec k (length points - a)) as [Hka | Hka].
      * rewrite nth_error_skipn, Nat.mod_small by lia. reflexivity.
      * rewrite nth_error_firstn.
        replace (k - (length points - a) <? b + 1)%nat with true
          by (symmetry; apply Nat.ltb_lt; lia).
        replace (a + k)%nat
          with ((k - (length points - a)) + 1 * length points)%nat by lia.
        rewrite Nat.Div0.mod_add, Nat.mod_small by lia. reflexivity.
Qed.

(** A run from [a] to [b] starts at [points[a]] and ends at [points[b]]. *)
Lemma circular_run_ends (run : list point) :
  circular_run points a b run ->
  nth_error run 0 = nth_error points a /\
  nth_error run (length run - 1) = nth_error points b.
Proof.
  unfold circular_run. intros [Hlen Hnth]. rewrite Hlen. split.
  - rewrite Hnth by (destruct (a <? b)%nat; lia).
    rewrite Nat.add_0_r, Nat.mod_small by lia. reflexivity.
  - rewrite Hnth by (destruct (a <? b)%nat; lia).
    destruct (Nat.ltb_spec a b) as [Hab | Hab].
    + replace (a + (b - a + 1 - 1))%nat with b by lia.
      rewrite Nat.mod_small by lia. reflexivity.
    + replace (a + (length points - a + b + 1 - 1))%nat
        with (b + 1 * length points)%nat by lia.
      rewrite Nat.Div0.mod_add, Nat.mod_small by lia. reflexivity.
Qed.

End Run.

Lemma rev_ends {A : Type} (l : list A) :
  l <> [] ->
  nth_error (rev l) 0 = nth_error l (length l - 1) /\
  nth_error (rev l) (length l - 1) = nth_error l 0.
Proof.
  intros Hl.
  assert (0 < length l)%nat by (destruct l; [congruence | simpl; lia]).
  rewrite !nth_error_rev.
  replace (0 <? length l)%nat with true by (symmetry; apply Nat.ltb_lt; lia).
  replace (length l - 1 <? length l)%nat with true
    by (symmetry; apply Nat.ltb_lt; lia).
  split; f_equal; lia.
Qed.

Lemma first_index_of_lt (points : list point) (b : point) (i : nat) :
  first_index_of points b i -> (i < length points)%nat.
Proof.
  intros [[q [Hq _]] _]. apply nth_error_Some. rewrite Hq. discriminate.
Qed.

(** ** [top_of_polygon] and [bottom_of_polygon] *)

(** C1, as the code has it: for every non-empty vertex list,
    [bottom_of_polygon] picks the vertex of least [x] with the lowest [y]
    and the vertex of greatest [x] with the lowest [y], takes the
    contiguous run going forward from the index of the right one to the
    index of the left one (through the end of the list unless the left
    index comes strictly after the right index), and returns that run
    reversed; so the returned sequence starts at a vertex of least [x]
    and ends at a vertex of greatest [x]. *)
Theorem bottom_of_polygon_run :
  forall points : list point,
    points <> [] ->
    exists (bl br : point) (il ir : nat) (run : list point),
      lowest_leftmost points bl /\ lowest_rightmost points br /\
      first_index_of points bl il /\ first_index_of points br ir /\
      circular_run points ir il run /\
      bottom_of_polygon points = Ok (rev run) /\
      exists first last : point,
        nth_error (rev run) 0 = Some first /\
        nth_error (rev run) (length (rev run) - 1) = Some last /\
        has_min_x points first /\ has_max_x points last.
Proof.
  intros points Hne.
  assert (Hxs : map fst points <> []) by (destruct points; [congruence | discriminate]).
  destruct (py_min_spec _ Hxs) as [left [Eleft [Hleft_in Hleft_le]]].
  destruct (py_max_spec _ Hxs) as [right [Eright [Hright_in Hright_le]]].
  destruct (select_lowest points left Hleft_in)
    as [bl [Ebl [Hbl_in [Hbl_x Hbl_y]]]].
  destruct (select_lowest points right Hright_in)
    as [br [Ebr [Hbr_in [Hbr_x Hbr_y]]]].
  destruct (index_spec points bl Hbl_in) as [il [Eil Hil]].
  destruct (index_spec points br Hbr_in) as [ir [Eir Hir]].
  pose proof (first_index_of_lt _ _ _ Hil) as Hil_lt.
  pose proof (first_index_of_lt _ _ _ Hir) as Hir_lt.
  set (run := if (ir <? il)%nat then slice points ir (il + 1)
              else slice_from points ir ++ slice_to points (il + 1)).
  pose proof (extracted_circular_run points ir il Hir_lt Hil_lt) as Hrun.
  cbv zeta in Hrun. fold run in Hrun.
  assert (Hmin : forall p, In p points -> (fst bl <= fst p)%Q).
  { intros p Hp. rewrite Hbl_x. apply Hleft_le, in_map, Hp. }
  assert (Hmax : forall p, In p points -> (fst p <= fst br)%Q).
  { intros p Hp. rewrite Hbr_x. apply Hright_le, in_map, Hp. }
  exists bl, br, il, ir, run.
  split. { split; [exact Hbl_in|]. split; [exact Hmin|].
           intros p Hp Hpx. apply Hbl_y; [exact Hp|]. now rewrite Hpx. }
  split. { split; [exact Hbr_in|]. split; [exact Hmax|].
           intros p Hp Hpx. apply Hbr_y; [exact Hp|]. now rewrite Hpx. }
  split; [exact Hil|]. split; [exact Hir|]. split; [exact Hrun|].
  split.
  { unfold bottom_of_polygon.
    rewrite Eleft, bind_Ok, Ebl, bind_Ok, Eright, bind_Ok, Ebr, bind_Ok.
    rewrite Eil, bind_Ok, Eir, bind_Ok. reflexivity. }
  destruct (circular_run_ends points ir il Hir_lt Hil_lt run Hrun)
    as [Hfirst Hlast].
  assert (Hrun_ne : run <> []).
  { intros E. destruct Hrun as [Hlen _]. rewrite E in Hlen. simpl in Hlen.
    destruct (ir <? il)%nat; lia. }
  destruct (rev_ends run Hrun_ne) as [R0 R1].
  destruct Hil as [[ql [Hql Hql_eq]] _]. destruct Hir as [[qr [Hqr Hqr_eq]] _].
  exists ql, qr. rewrite length_rev, R0, R1, Hlast, Hfirst.
  split; [exact Hql|]. split; [exact Hqr|].
  destruct Hql_eq as [Hqlx _]. destruct Hqr_eq as [Hqrx _].
  split.
  - split; [eapply nth_error_In, Hql|].
    intros p Hp. rewrite Hqlx. now apply Hmin.
  - split; [eapply nth_error_In, Hqr|].
    intros p Hp. rewrite Hqrx. now apply Hmax.
Qed.

Lemma bottom_of_polygon_run_witness :
  exists (bl br : point) (il ir : nat) (run : list point),
    lowest_leftmost hexagon bl /\ lowest_rightmost hexagon br /\
    first_index_of hexagon bl il /\ first_index_of hexagon br ir /\
    circular_run hexagon ir il run /\
    bottom_of_polygon hexagon = Ok (rev run) /\
    exists first last : point,
      nth_error (rev run) 0 = Some first /\
      nth_error (rev run) (length (rev run) - 1) = Some last /\
      has_min_x hexagon first /\ has_max_x hexagon last.
Proof.
  apply (bottom_of_polygon_run hexagon). discriminate.
Defined.

Example bottom_of_polygon_hexagon :
  bottom_of_polygon hexagon = Ok [(0, 0); (2, -2); (5, -1)]%Q.
Proof. reflexivity. Qed.

Example top_of_polygon_hexagon :
  top_of_polygon hexagon = Ok [(0, 2); (3, 3); (5, 1)]%Q.
Proof. reflexivity. Qed.

(** On the unit square the code and the specification's wording part:
    the code returns the lower edge, the run from the left index to the
    right index, reversed, is the whole square from right to left. *)
Lemma bottom_of_polygon_not_as_worded :
  bottom_of_polygon unit_square = Ok [(0, 0); (1, 0)]%Q /\
  bottom_of_polygon_as_worded unit_square
  = Ok [(1, 0); (1, 1); (0, 1); (0, 0)]%Q /\
  bottom_of_polygon unit_square <> bottom_of_polygon_as_worded unit_square.
Proof.
  split; [reflexivity|]. split; [reflexivity|]. discriminate.
Qed.

(** C9: on the clockwise unit square [[(0,0),(0,1),(1,1),(1,0)]],
    [top_of_polygon] returns the upper edge left to right,
    [[(0,1),(1,1)]], [bottom_of_polygon] returns the lower edge left to
    right, [[(0,0),(1,0)]], and the two outputs together hold all four
    vertices. *)
Theorem unit_square_top_and_bottom :
  top_of_polygon unit_square = Ok [(0, 1); (1, 1)]%Q /\
  bottom_of_polygon unit_square = Ok [(0, 0); (1, 0)]%Q /\
  incl unit_square ([(0, 1); (1, 1)] ++ [(0, 0); (1, 0)])%Q.
Proof.
  split; [reflexivity|]. split; [reflexivity|].
  intros p Hp. unfold unit_square in Hp. simpl in Hp |- *. tauto.
Qed.

(** * Further properties *)

(** ** [polyline_z_at]: every outcome *)

Lemma brackets_at_dec (points : list point) (x : Q) (j : nat) :
  {brackets_at points x j} + {~ brackets_at points x j}.
Proof.
  unfold brackets_at.
  destruct (nth_error points j) as [p|] eqn:Ep;
    [|right; intros [p [q [H _]]]; discriminate].
  destruct (nth_error points (S j)) as [q|] eqn:Eq;
    [|right; intros [p' [q [_ [H _]]]]; discriminate].
  destruct (Qle_bool (fst p) x) eqn:E1.
  - destruct (Qle_bool x (fst q)) eqn:E2.
    + left. exists p, q. apply Qle_bool_iff in E1, E2. auto.
    + right. intros [p' [q' [[= <-] [[= <-] [_ H]]]]].
      apply Qle_bool_iff in H. congruence.
  - right. intros [p' [q' [[= <-] [_ [H _]]]]].
    apply Qle_bool_iff in H. congruence.
Qed.

(** Either no pair below [n] brackets [x], or there is a first one. *)
Lemma first_bracket (points : list point) (x : Q) (n : nat) :
  (forall j, (j < n)%nat -> ~ brackets_at points x j) \/
  (exists i, (i < n)%nat /\ brackets_at points x i /\
             forall j, (j < i)%nat -> ~ brackets_at points x j).
Proof.
  induction n as [|n [IH | IH]].
  - left. intros j Hj. lia.
  - destruct (brackets_at_dec points x n) as [Hb | Hb].
    + right. exists n. split; [lia|]. split; [exact Hb|].
      intros j Hj. apply IH, Hj.
    + left. intros j Hj.
      destruct (Nat.eq_dec j n) as [-> | Hne]; [exact Hb|].
      apply IH. lia.
  - right. destruct IH as [i [Hi H]]. exists i. split; [lia | exact H].
Qed.

Lemma brackets_at_lt (points : list point) (x : Q) (j : nat) :
  brackets_at points x j -> (S j < length points)%nat.
Proof.
  intros [p [q [_ [Hq _]]]]. apply nth_error_Some. rewrite Hq. discriminate.
Qed.

Lemma Qminus_eq_0 (a b : Q) : (b - a == 0)%Q <-> (a == b)%Q.
Proof. split; intros H; lra. Qed.

(** The three ways a call ends: no pair brackets [x]; the first bracketing
    pair is vertical; the first bracketing pair goes up in [x]. *)
Lemma polyline_z_at_outcome (points : list point) (x : Q) :
  ((forall j, ~ brackets_at points x j) /\
   polyline_z_at points x = Raise ValueError_not_between) \/
  (exists (i : nat) (x1 y1 x2 y2 : Q),
      nth_error points i = Some (x1, y1) /\
      nth_error points (S i) = Some (x2, y2) /\
      (forall j, (j < i)%nat -> ~ brackets_at points x j) /\
      (x1 <= x)%Q /\ (x <= x2)%Q /\
      (((x1 == x2)%Q /\ polyline_z_at points x = Raise ZeroDivisionError) \/
       ((x1 < x2)%Q /\
        polyline_z_at points x
        = Ok (y1 + (x - x1) / (x2 - x1) * (y2 - y1))%Q))).
Proof.
  destruct (first_bracket points x (length points)) as [Hno | [i [_ [Hb Hfirst]]]].
  - left.
    assert (Hall : forall j, ~ brackets_at points x j).
    { intros j Hb. apply (Hno j); [|exact Hb].
      apply brackets_at_lt in Hb. lia. }
    split; [exact Hall | now apply polyline_z_at_no_bracket].
  - right. destruct Hb as [[x1 y1] [[x2 y2] [H1 [H2 [Hle1 Hle2]]]]].
    cbn [fst] in Hle1, Hle2.
    exists i, x1, y1, x2, y2.
    split; [exact H1|]. split; [exact H2|]. split; [exact Hfirst|].
    split; [exact Hle1|]. split; [exact Hle2|].
    rewrite (polyline_z_at_first_bracket points x H1 H2 Hfirst Hle1 Hle2).
    destruct (Qeq_dec x1 x2) as [Heq | Hne].
    + left. split; [exact Heq|].
      rewrite truediv_zero; [reflexivity | now apply Qminus_eq_0].
    + right. split.
      * destruct (Qle_lt_or_eq x1 x2) as [Hlt | Heq];
          [lra | exact Hlt | contradiction].
      * rewrite truediv_nonzero; [reflexivity|].
        intros H0. apply Hne. now apply Qminus_eq_0.
Qed.

(** Whenever a value is returned it is the interpolation expression
    evaluated on the first pair that brackets [x]: no later pair is ever
    used. *)
Theorem polyline_z_at_returns_interpolation :
  forall (points : list point) (x z : Q),
    polyline_z_at points x = Ok z ->
    exists (i : nat) (x1 y1 x2 y2 : Q),
      nth_error points i = Some (x1, y1) /\
      nth_error points (S i) = Some (x2, y2) /\
      (forall j, (j < i)%nat -> ~ brackets_at points x j) /\
      (x1 <= x)%Q /\ (x <= x2)%Q /\
      z = (y1 + (x - x1) / (x2 - x1) * (y2 - y1))%Q.
Proof.
  intros points x z Hz.
  destruct (polyline_z_at_outcome points x)
    as [[_ E] | [i [x1 [y1 [x2 [y2 [H1 [H2 [Hf [Hl1 [Hl2 H]]]]]]]]]]].
  - rewrite E in Hz. discriminate.
  - destruct H as [[_ E] | [Hlt E]]; rewrite E in Hz; [discriminate|].
    injection Hz as <-.
    exists i, x1, y1, x2, y2. repeat (split; [assumption|]). reflexivity.
Qed.

Lemma polyline_z_at_returns_interpolation_witness :
  exists (i : nat) (x1 y1 x2 y2 : Q),
    nth_error [(0, 3); (4, 1); (2, 2); (6, 10)]%Q i = Some (x1, y1) /\
    nth_error [(0, 3); (4, 1); (2, 2); (6, 10)]%Q (S i) = Some (x2, y2) /\
    (forall j, (j < i)%nat ->
               ~ brackets_at [(0, 3); (4, 1); (2, 2); (6, 10)]%Q 5 j) /\
    (x1 <= 5)%Q /\ (5 <= x2)%Q /\
    (2 + (5 - 2) / (6 - 2) * (10 - 2))%Q
    = (y1 + (5 - x1) / (x2 - x1) * (y2 - y1))%Q.
Proof.
  apply (polyline_z_at_returns_interpolation
           [(0, 3); (4, 1); (2, 2); (6, 10)]%Q 5%Q
           (2 + (5 - 2) / (6 - 2) * (10 - 2))%Q).
  reflexivity.
Defined.

(** A call raises in two ways only: "not between" when no pair brackets
    [x], division by zero when the first bracketing pair is vertical.
    No index ever falls outside the list. *)
Theorem polyline_z_at_raises_two_ways :
  forall (points : list point) (x : Q) (e : exn),
    polyline_z_at points x = Raise e ->
    (e = ValueError_not_between /\ forall j, ~ brackets_at points x j) \/
    (e = ZeroDivisionError /\
     exists (i : nat) (x1 y1 x2 y2 : Q),
       nth_error points i = Some (x1, y1) /\
       nth_error points (S i) = Some (x2, y2) /\
       (forall j, (j < i)%nat -> ~ brackets_at points x j) /\
       (x1 == x)%Q /\ (x == x2)%Q).
Proof.
  intros points x e He.
  destruct (polyline_z_at_outcome points x)
    as [[Hno E] | [i [x1 [y1 [x2 [y2 [H1 [H2 [Hf [Hl1 [Hl2 H]]]]]]]]]]].
  - left. rewrite E in He. injection He as <-. now split.
  - destruct H as [[Heq E] | [_ E]]; rewrite E in He; [|discriminate].
    injection He as <-. right. split; [reflexivity|].
    exists i, x1, y1, x2, y2. repeat (split; [assumption|]).
    split; lra.
Qed.

Lemma polyline_z_at_raises_two_ways_witness :
  (ZeroDivisionError = ValueError_not_between /\
   forall j, ~ brackets_at [(5, 0); (2, 1); (2, 5); (4, 6)]%Q 2 j) \/
  (ZeroDivisionError = ZeroDivisionError /\
   exists (i : nat) (x1 y1 x2 y2 : Q),
     nth_error [(5, 0); (2, 1); (2, 5); (4, 6)]%Q i = Some (x1, y1) /\
     nth_error [(5, 0); (2, 1); (2, 5); (4, 6)]%Q (S i) = Some (x2, y2) /\
     (forall j, (j < i)%nat ->
                ~ brackets_at [(5, 0); (2, 1); (2, 5); (4, 6)]%Q 2 j) /\
     (x1 == 2)%Q /\ (2 == x2)%Q).
Proof.
  apply (polyline_z_at_raises_two_ways
           [(5, 0); (2, 1); (2, 5); (4, 6)]%Q 2%Q ZeroDivisionError).
  reflexivity.
Defined.

(** ** [polyline_z_at] on polylines that go strictly up in [x] *)

(** On a polyline of at least two points that goes strictly up in [x],
    every [x] from the first point's to the last point's gets a value:
    the call does not raise. *)
Theorem polyline_z_at_defined_on_extent :
  forall (points : list point) (x xa ya xb yb : Q),
    strictly_increasing_x points ->
    (2 <= length points)%nat ->
    nth_error points 0 = Some (xa, ya) ->
    nth_error points (length points - 1) = Some (xb, yb) ->
    (xa <= x)%Q -> (x <= xb)%Q ->
    exists z, polyline_z_at points x = Ok z.
Proof.
  intros points x xa ya xb yb Hinc Hlen Ha Hb Hax Hxb.
  destruct (polyline_z_at_outcome points x)
    as [[Hno _] | [i [x1 [y1 [x2 [y2 [H1 [H2 [_ [_ [_ H]]]]]]]]]]].
  - exfalso.
    assert (Hpast : forall j, (S j < length points)%nat ->
              exists q, nth_error points (S j) = Some q /\ (fst q < x)%Q).
    { induction j as [|j IH]; intros Hj.
      - destruct (getitem_lt points 1 Hj) as [q [Hq _]].
        exists q. split; [exact Hq|].
        apply Qnot_le_lt. intros Hle. apply (Hno 0%nat).
        exists (xa, ya), q. auto.
      - destruct IH as [p [Hp Hpx]]; [lia|].
        destruct (getitem_lt points (S (S j)) Hj) as [q [Hq _]].
        exists q. split; [exact Hq|].
        apply Qnot_le_lt. intros Hle. apply (Hno (S j)).
        exists p, q. split; [exact Hp|]. split; [exact Hq|].
        split; [now apply Qlt_le_weak | exact Hle]. }
    destruct (Hpast (length points - 2)%nat) as [q [Hq Hqx]]; [lia|].
    replace (S (length points - 2)) with (length points - 1)%nat in Hq by lia.
    rewrite Hb in Hq. injection Hq as <-. cbn [fst] in Hqx. lra.
  - destruct H as [[Heq _] | [_ E]].
    + exfalso. pose proof (Hinc i _ _ H1 H2) as Hlt. cbn [fst] in Hlt. lra.
    + eexists. exact E.
Qed.

Lemma polyline_z_at_defined_on_extent_witness :
  exists z, polyline_z_at [(0, 1); (2, 5); (3, 4); (7, 0)]%Q 6 = Ok z.
Proof.
  apply (polyline_z_at_defined_on_extent
           [(0, 1); (2, 5); (3, 4); (7, 0)]%Q 6%Q 0%Q 1%Q 7%Q 0%Q).
  - intros j p q Hp Hq.
    destruct j as [|[|[|j]]]; try (destruct j; discriminate Hq);
      injection Hp as <-; injection Hq as <-; reflexivity.
  - simpl. lia.
  - reflexivity.
  - reflexivity.
  - unfold Qle; simpl; lia.
  - unfold Qle; simpl; lia.
Defined.

(** ** [top_of_polygon] and [bottom_of_polygon]: shape of the result *)

Lemma sorted_last {A : Type} (R : A -> A -> Prop) (l : list A) :
  StronglySorted R l ->
  forall b, nth_error l (length l - 1) = Some b ->
            Forall (fun p => R p b \/ p = b) l.
Proof.
  induction 1 as [|a l Hl IH Ha]; intros b Hb; [constructor|].
  destruct l as [|a' l'].
  - injection Hb as <-. constructor; [now right | constructor].
  - assert (Hb' : nth_error (a' :: l') (length (a' :: l') - 1) = Some b).
    { simpl in Hb |- *. now rewrite Nat.sub_0_r in *. }
    constructor; [|now apply IH].
    left. rewrite Forall_forall in Ha. apply Ha.
    eapply nth_error_In, Hb'.
Qed.

(** [sorted(..., key=y)[-1]] over the vertices whose [x] equals [m]. *)
Lemma select_highest (points : list point) (m : Q) :
  In m (map fst points) ->
  exists b,
    getitem_last (sorted snd (filter (fun p => Qeq_bool (fst p) m) points))
    = Ok b /\
    In b points /\ (fst b == m)%Q /\
    forall p, In p points -> (fst p == m)%Q -> (snd p <= snd b)%Q.
Proof.
  intros Hm. apply in_map_iff in Hm. destruct Hm as [p0 [Hp0 Hin0]].
  set (F := filter (fun p => Qeq_bool (fst p) m) points).
  assert (HF : forall p, In p F <-> In p points /\ (fst p == m)%Q).
  { intros p. unfold F. rewrite filter_In, Qeq_bool_iff. reflexivity. }
  assert (Hp0F : In p0 (sorted snd F)).
  { apply sorted_In, HF. split; [exact Hin0|]. rewrite Hp0. reflexivity. }
  pose proof (sorted_sorted snd F) as Hs.
  pose proof (sorted_In snd F) as HI.
  unfold getitem_last.
  destruct (sorted snd F) as [|a s] eqn:ES; [contradiction|].
  destruct (getitem_lt (a :: s) (length (a :: s) - 1)) as [b [Hb Eb]];
    [simpl; lia|].
  exists b. split; [exact Eb|].
  assert (Hbin : In b points /\ (fst b == m)%Q)
    by (apply HF, HI; eapply nth_error_In, Hb).
  split; [apply Hbin|]. split; [apply Hbin|].
  intros p Hp Hpm.
  assert (Hps : In p (a :: s)) by (apply HI, HF; now split).
  pose proof (sorted_last _ _ Hs b Hb) as Hall.
  rewrite Forall_forall in Hall.
  destruct (Hall p Hps) as [Hle | ->]; [exact Hle | apply Qle_refl].
Qed.

Lemma map_fst_nonempty (points : list point) :
  points <> [] -> map fst points <> [].
Proof. destruct points; [congruence | discriminate]. Qed.

(** What [top_of_polygon] computes on a non-empty list. *)
Lemma top_of_polygon_shape (points : list point) :
  points <> [] ->
  exists (tl tr : point) (il ir : nat),
    highest_leftmost points tl /\ highest_rightmost points tr /\
    first_index_of points tl il /\ first_index_of points tr ir /\
    top_of_polygon points =
    Ok (if (il <? ir)%nat then slice points il (ir + 1)
        else slice_from points il ++ slice_to points (ir + 1)).
Proof.
  intros Hne. apply map_fst_nonempty in Hne.
  destruct (py_min_spec _ Hne) as [left [Eleft [Hleft_in Hleft_le]]].
  destruct (py_max_spec _ Hne) as [right [Eright [Hright_in Hright_le]]].
  destruct (select_highest points left Hleft_in)
    as [tl [Etl [Htl_in [Htl_x Htl_y]]]].
  destruct (select_highest points right Hright_in)
    as [tr [Etr [Htr_in [Htr_x Htr_y]]]].
  destruct (index_spec points tl Htl_in) as [il [Eil Hil]].
  destruct (index_spec points tr Htr_in) as [ir [Eir Hir]].
  exists tl, tr, il, ir.
  split. { split; [exact Htl_in|]. split.
           - intros p Hp. rewrite Htl_x. apply Hleft_le, in_map, Hp.
           - intros p Hp Hpx. apply Htl_y; [exact Hp|]. now rewrite Hpx. }
  split. { split; [exact Htr_in|]. split.
           - intros p Hp. rewrite Htr_x. apply Hright_le, in_map, Hp.
           - intros p Hp Hpx. apply Htr_y; [exact Hp|]. now rewrite Hpx. }
  split; [exact Hil|]. split; [exact Hir|].
  unfold top_of_polygon.
  rewrite Eleft, bind_Ok, Etl, bind_Ok, Eright, bind_Ok, Etr, bind_Ok.
  rewrite Eil, bind_Ok, Eir, bind_Ok.
  destruct (il <? ir)%nat; reflexivity.
Qed.

(** What [bottom_of_polygon] computes on a non-empty list. *)
Lemma bottom_of_polygon_shape (points : list point) :
  points <> [] ->
  exists (bl br : point) (il ir : nat),
    lowest_leftmost points bl /\ lowest_rightmost points br /\
    first_index_of points bl il /\ first_index_of points br ir /\
    bottom_of_polygon points =
    Ok (rev (if (ir <? il)%nat then slice points ir (il + 1)
             else slice_from points ir ++ slice_to points (il + 1))).
Proof.
  intros Hne. apply map_fst_nonempty in Hne.
  destruct (py_min_spec _ Hne) as [left [Eleft [Hleft_in Hleft_le]]].
  destruct (py_max_spec _ Hne) as [right [Eright [Hright_in Hright_le]]].
  destruct (select_lowest points left Hleft_in)
    as [bl [Ebl [Hbl_in [Hbl_x Hbl_y]]]].
  destruct (select_lowest points right Hright_in)
    as [br [Ebr [Hbr_in [Hbr_x Hbr_y]]]].
  destruct (index_spec points bl Hbl_in) as [il [Eil Hil]].
  destruct (index_spec points br Hbr_in) as [ir [Eir Hir]].
  exists bl, br, il, ir.
  split. { split; [exact Hbl_in|]. split.
           - intros p Hp. rewrite Hbl_x. apply Hleft_le, in_map, Hp.
           - intros p Hp Hpx. apply Hbl_y; [exact Hp|]. now rewrite Hpx. }
  split. { split; [exact Hbr_in|]. split.
           - intros p Hp. rewrite Hbr_x. apply Hright_le, in_map, Hp.
           - intros p Hp Hpx. apply Hbr_y; [exact Hp|]. now rewrite Hpx. }
  split; [exact Hil|]. split; [exact Hir|].
  unfold bottom_of_polygon.
  rewrite Eleft, bind_Ok, Ebl, bind_Ok, Eright, bind_Ok, Ebr, bind_Ok.
  rewrite Eil, bind_Ok, Eir, bind_Ok. reflexivity.
Qed.

(** For every non-empty vertex list, [top_of_polygon] picks the vertex of
    least [x] with the highest [y] and the vertex of greatest [x] with the
    highest [y], and returns the contiguous run going forward from the
    index of the left one to the index of the right one (through the end
    of the list unless the right index comes strictly after the left
    one); the run starts at a vertex of least [x] and ends at a vertex of
    greatest [x]. *)
Theorem top_of_polygon_run :
  forall points : list point,
    points <> [] ->
    exists (tl tr : point) (il ir : nat) (run : list point),
      highest_leftmost points tl /\ highest_rightmost points tr /\
      first_index_of points tl il /\ first_index_of points tr ir /\
      circular_run points il ir run /\
      top_of_polygon points = Ok run /\
      exists first last : point,
        nth_error run 0 = Some first /\
        nth_error run (length run - 1) = Some last /\
        has_min_x points first /\ has_max_x points last.
Proof.
  intros points Hne.
  destruct (top_of_polygon_shape points Hne)
    as [tl [tr [il [ir [Htl [Htr [Hil [Hir E]]]]]]]].
  pose proof (first_index_of_lt _ _ _ Hil) as Hil_lt.
  pose proof (first_index_of_lt _ _ _ Hir) as Hir_lt.
  pose proof (extracted_circular_run points il ir Hil_lt Hir_lt) as Hrun.
  cbv zeta in Hrun.
  set (run := if (il <? ir)%nat then slice points il (ir + 1)
              else slice_from points il ++ slice_to points (ir + 1)) in *.
  exists tl, tr, il, ir, run.
  repeat (split; [assumption|]).
  destruct (circular_run_ends points il ir Hil_lt Hir_lt run Hrun)
    as [Hfirst Hlast].
  destruct Hil as [[ql [Hql [Hqlx _]]] _].
  destruct Hir as [[qr [Hqr [Hqrx _]]] _].
  exists ql, qr. rewrite Hfirst, Hlast.
  split; [exact Hql|]. split; [exact Hqr|].
  destruct Htl as [_ [Hmin _]]. destruct Htr as [_ [Hmax _]].
  split.
  - split; [eapply nth_error_In, Hql|].
    intros p Hp. rewrite Hqlx. now apply Hmin.
  - split; [eapply nth_error_In, Hqr|].
    intros p Hp. rewrite Hqrx. now apply Hmax.
Qed.

Lemma top_of_polygon_run_witness :
  exists (tl tr : point) (il ir : nat) (run : list point),
    highest_leftmost hexagon tl /\ highest_rightmost hexagon tr /\
    first_index_of hexagon tl il /\ first_index_of hexagon tr ir /\
    circular_run hexagon il ir run /\
    top_of_polygon hexagon = Ok run /\
    exists first last : point,
      nth_error run 0 = Some first /\
      nth_error run (length run - 1) = Some last /\
      has_min_x hexagon first /\ has_max_x hexagon last.
Proof.
  apply (top_of_polygon_run hexagon). discriminate.
Defined.

Lemma circular_run_within (points : list point) (a b : nat) (run : list point) :
  (a < length points)%nat -> (b < length points)%nat ->
  circular_run points a b run ->
  incl run points /\ (1 <= length run <= S (length points))%nat.
Proof.
  intros Ha Hb [Hlen Hnth]. split.
  - intros p Hp. apply In_nth_error in Hp. destruct Hp as [k Hk].
    assert (Hklt : (k < length run)%nat)
      by (apply nth_error_Some; rewrite Hk; discriminate).
    rewrite Hnth in Hk by (rewrite <- Hlen; exact Hklt).
    eapply nth_error_In, Hk.
  - rewrite Hlen. destruct (Nat.ltb_spec a b); lia.
Qed.

Lemma top_of_polygon_ends (points : list point) :
  points <> [] ->
  exists (tl tr : point) (out : list point) (first last : point),
    highest_leftmost points tl /\ highest_rightmost points tr /\
    top_of_polygon points = Ok out /\
    incl out points /\ (1 <= length out <= S (length points))%nat /\
    nth_error out 0 = Some first /\
    nth_error out (length out - 1) = Some last /\
    point_eq first tl /\ point_eq last tr.
Proof.
  intros Hne.
  destruct (top_of_polygon_shape points Hne)
    as [tl [tr [il [ir [Htl [Htr [Hil [Hir E]]]]]]]].
  pose proof (first_index_of_lt _ _ _ Hil) as Hil_lt.
  pose proof (first_index_of_lt _ _ _ Hir) as Hir_lt.
  pose proof (extracted_circular_run points il ir Hil_lt Hir_lt) as Hrun.
  cbv zeta in Hrun.
  set (run := if (il <? ir)%nat then slice points il (ir + 1)
              else slice_from points il ++ slice_to points (ir + 1)) in *.
  destruct (circular_run_ends points il ir Hil_lt Hir_lt run Hrun)
    as [Hfirst Hlast].
  destruct (circular_run_within points il ir run Hil_lt Hir_lt Hrun)
    as [Hincl Hlen].
  destruct Hil as [[ql [Hql Hqleq]] _]. destruct Hir as [[qr [Hqr Hqreq]] _].
  exists tl, tr, run, ql, qr. rewrite Hfirst, Hlast.
  repeat (split; [assumption|]). assumption.
Qed.

Lemma bottom_of_polygon_ends (points : list point) :
  points <> [] ->
  exists (bl br : point) (out : list point) (first last : point),
    lowest_leftmost points bl /\ lowest_rightmost points br /\
    bottom_of_polygon points = Ok out /\
    incl out points /\ (1 <= length out <= S (length points))%nat /\
    nth_error out 0 = Some first /\
    nth_error out (length out - 1) = Some last /\
    point_eq first bl /\ point_eq last br.
Proof.
  intros Hne.
  destruct (bottom_of_polygon_shape points Hne)
    as [bl [br [il [ir [Hbl [Hbr [Hil [Hir E]]]]]]]].
  pose proof (first_index_of_lt _ _ _ Hil) as Hil_lt.
  pose proof (first_index_of_lt _ _ _ Hir) as Hir_lt.
  pose proof (extracted_circular_run points ir il Hir_lt Hil_lt) as Hrun.
  cbv zeta in Hrun.
  set (run := if (ir <? il)%nat then slice points ir (il + 1)
              else slice_from points ir ++ slice_to points (il + 1)) in *.
  destruct (circular_run_ends points ir il Hir_lt Hil_lt run Hrun)
    as [Hfirst Hlast].
  destruct (circular_run_within points ir il run Hir_lt Hil_lt Hrun)
    as [Hincl Hlen].
  assert (Hrun_ne : run <> []) by (intros Hnil; rewrite Hnil in Hlen; simpl in Hlen; lia).
  destruct (rev_ends run Hrun_ne) as [R0 R1].
  destruct Hil as [[ql [Hql Hqleq]] _]. destruct Hir as [[qr [Hqr Hqreq]] _].
  exists bl, br, (rev run), ql, qr.
  rewrite length_rev, R0, R1, Hfirst, Hlast.
  split; [exact Hbl|]. split; [exact Hbr|]. split; [exact E|].
  split. { intros p Hp. apply Hincl. now apply in_rev. }
  repeat (split; [assumption|]). assumption.
Qed.

(** The two extractors fail on the empty list only, there with the
    [ValueError] of [min()]; on every other list both return a sequence. *)
Theorem polygon_sides_raise_iff_empty :
  forall points : list point,
    (points = [] /\
     top_of_polygon points = Raise ValueError_empty_arg /\
     bottom_of_polygon points = Raise ValueError_empty_arg) \/
    (points <> [] /\
     exists t b, top_of_polygon points = Ok t /\ bottom_of_polygon points = Ok b).
Proof.
  intros [|p points].
  - left. repeat split.
  - right. split; [discriminate|].
    destruct (top_of_polygon_ends (p :: points))
      as [tl [tr [t [tf [tla H]]]]]; [discriminate|].
    destruct (bottom_of_polygon_ends (p :: points))
      as [bl [br [b [bf [bla H']]]]]; [discriminate|].
    exists t, b. split; [apply H | apply H'].
Qed.

(** Whatever either extractor returns is made of vertices of the input,
    is not empty, and is at most one point longer than the input. *)
Theorem polygon_sides_within_input :
  forall points out : list point,
    top_of_polygon points = Ok out \/ bottom_of_polygon points = Ok out ->
    incl out points /\ (1 <= length out <= S (length points))%nat.
Proof.
  intros points out H.
  assert (Hne : points <> []) by (intros ->; destruct H; discriminate).
  destruct H as [H | H].
  - destruct (top_of_polygon_ends points Hne)
      as [tl [tr [t [tf [tla [_ [_ [E [Hincl [Hlen _]]]]]]]]]].
    rewrite E in H. injection H as <-. now split.
  - destruct (bottom_of_polygon_ends points Hne)
      as [bl [br [b [bf [bla [_ [_ [E [Hincl [Hlen _]]]]]]]]]].
    rewrite E in H. injection H as <-. now split.
Qed.

Lemma polygon_sides_within_input_witness :
  incl [(0, 0); (2, -2); (5, -1)]%Q hexagon /\
  (1 <= length [(0, 0); (2, -2); (5, -1)]%Q <= S (length hexagon))%nat.
Proof.
  apply (polygon_sides_within_input hexagon [(0, 0); (2, -2); (5, -1)]%Q).
  right. reflexivity.
Defined.

(** Both sides start at a vertex of least [x] and end at a vertex of
    greatest [x]; at each of these two [x], every vertex of the polygon
    lies between the bottom side's end point and the top side's end point
    in [y], so the top side is nowhere lower than the bottom side at its
    ends. *)
Theorem top_not_below_bottom_at_ends :
  forall points t b : list point,
    top_of_polygon points = Ok t ->
    bottom_of_polygon points = Ok b ->
    exists t_first t_last b_first b_last : point,
      nth_error t 0 = Some t_first /\
      nth_error t (length t - 1) = Some t_last /\
      nth_error b 0 = Some b_first /\
      nth_error b (length b - 1) = Some b_last /\
      has_min_x points t_first /\ has_min_x points b_first /\
      has_max_x points t_last /\ has_max_x points b_last /\
      (fst t_first == fst b_first)%Q /\ (snd b_first <= snd t_first)%Q /\
      (fst t_last == fst b_last)%Q /\ (snd b_last <= snd t_last)%Q /\
      (forall p, In p points -> (fst p == fst t_first)%Q ->
                 (snd b_first <= snd p)%Q /\ (snd p <= snd t_first)%Q) /\
      (forall p, In p points -> (fst p == fst t_last)%Q ->
                 (snd b_last <= snd p)%Q /\ (snd p <= snd t_last)%Q).
Proof.
  intros points t b Ht Hb.
  assert (Hne : points <> []) by (intros ->; discriminate).
  destruct (top_of_polygon_ends points Hne)
    as [tl [tr [t' [tf [tla [Htl [Htr [Et [Hti [_ [Htf [Htla [[Efx Efy] [Elx Ely]]]]]]]]]]]]]].
  destruct (bottom_of_polygon_ends points Hne)
    as [bl [br [b' [bf [bla [Hbl [Hbr [Eb [Hbi [_ [Hbf [Hbla [[Fx Fy] [Gx Gy]]]]]]]]]]]]]].
  rewrite Et in Ht. injection Ht as <-. rewrite Eb in Hb. injection Hb as <-.
  exists tf, tla, bf, bla. repeat (split; [assumption|]).
  destruct Htl as [Htl_in [Htl_min Htl_y]]. destruct Htr as [Htr_in [Htr_max Htr_y]].
  destruct Hbl as [Hbl_in [Hbl_min Hbl_y]]. destruct Hbr as [Hbr_in [Hbr_max Hbr_y]].
  assert (Exl : (fst bl == fst tl)%Q).
  { apply Qle_antisym; [now apply Hbl_min | now apply Htl_min]. }
  assert (Exr : (fst br == fst tr)%Q).
  { apply Qle_antisym; [now apply Htr_max | now apply Hbr_max]. }
  assert (Htf_in : In tf t') by (eapply nth_error_In, Htf).
  assert (Htla_in : In tla t') by (eapply nth_error_In, Htla).
  assert (Hbf_in : In bf b') by (eapply nth_error_In, Hbf).
  assert (Hbla_in : In bla b') by (eapply nth_error_In, Hbla).
  split. { split; [now apply Hti|]. intros q Hq. rewrite Efx. now apply Htl_min. }
  split. { split; [now apply Hbi|]. intros q Hq. rewrite Fx. now apply Hbl_min. }
  split. { split; [now apply Hti|]. intros q Hq. rewrite Elx. now apply Htr_max. }
  split. { split; [now apply Hbi|]. intros q Hq. rewrite Gx. now apply Hbr_max. }
  split; [rewrite Efx, Fx; now symmetry|].
  split; [rewrite Efy, Fy; now apply Htl_y|].
  split; [rewrite Elx, Gx; now symmetry|].
  split; [rewrite Ely, Gy; now apply Htr_y|].
  split.
  - intros p Hp Hpx. rewrite Efx in Hpx. rewrite Efy, Fy. split.
    + apply Hbl_y; [exact Hp|]. now rewrite Hpx.
    + now apply Htl_y.
  - intros p Hp Hpx. rewrite Elx in Hpx. rewrite Ely, Gy. split.
    + apply Hbr_y; [exact Hp|]. now rewrite Hpx.
    + now apply Htr_y.
Qed.

Lemma top_not_below_bottom_at_ends_witness :
  exists t_first t_last b_first b_last : point,
    nth_error [(0, 2); (3, 3); (5, 1)]%Q 0 = Some t_first /\
    nth_error [(0, 2); (3, 3); (5, 1)]%Q
      (length [(0, 2); (3, 3); (5, 1)]%Q - 1) = Some t_last /\
    nth_error [(0, 0); (2, -2); (5, -1)]%Q 0 = Some b_first /\
    nth_error [(0, 0); (2, -2); (5, -1)]%Q
      (length [(0, 0); (2, -2); (5, -1)]%Q - 1) = Some b_last /\
    has_min_x hexagon t_first /\ has_min_x hexagon b_first /\
    has_max_x hexagon t_last /\ has_max_x hexagon b_last /\
    (fst t_first == fst b_first)%Q /\ (snd b_first <= snd t_first)%Q /\
    (fst t_last == fst b_last)%Q /\ (snd b_last <= snd t_last)%Q /\
    (forall p, In p hexagon -> (fst p == fst t_first)%Q ->
               (snd b_first <= snd p)%Q /\ (snd p <= snd t_first)%Q) /\
    (forall p, In p hexagon -> (fst p == fst t_last)%Q ->
               (snd b_last <= snd p)%Q /\ (snd p <= snd t_last)%Q).
Proof.
  apply (top_not_below_bottom_at_ends hexagon
           [(0, 2); (3, 3); (5, 1)]%Q [(0, 0); (2, -2); (5, -1)]%Q).
  - reflexivity.
  - reflexivity.
Defined.

(** ** [polyline_polyline_intersections]: errors, losses and order *)

(** Once the intersection geometry is at hand, the function's own code
    raises the "unimplemented type" error only, on a non-empty
    multi-line-string or geometry collection. *)
Lemma intersections_raise_inversion
  (intersection : list point -> list point -> geometry)
  (points_line1 points_line2 : list point) (e : exn) :
  polyline_polyline_intersections intersection points_line1 points_line2
  = Raise e ->
  e = ValueError_unimplemented_type /\
  is_empty (intersection points_line1 points_line2) = false /\
  ((exists gs, intersection points_line1 points_line2 = MultiLineString gs) \/
   (exists gs, intersection points_line1 points_line2 = GeometryCollection gs)).
Proof.
  unfold polyline_polyline_intersections.
  destruct (classify (intersection points_line1 points_line2)) as [ex|err] eqn:E.
  - rewrite bind_Ok. destruct ex as [r|v]; [|discriminate].
    destruct (length (filter (kept points_line1 points_line2) r) =? 0)%nat;
      discriminate.
  - cbn [bind]. intros [= <-].
    unfold classify in E.
    destruct (is_empty (intersection points_line1 points_line2)) eqn:Em;
      [discriminate|].
    destruct (intersection points_line1 points_line2) as [[|c cs]|c|c|gs|gs];
      try discriminate.
    + injection E as <-. repeat split. left. now exists gs.
    + injection E as <-. repeat split. right. now exists gs.
Qed.

(** An exception raised inside [shapely] (by [LineString(...)] on a
    one-point list, say) leaves the call as it is; when [shapely] answers,
    the only error the function raises is the "unimplemented type" one,
    and only on a non-empty geometry that is a multi-line-string or a
    geometry collection: reading the coordinate of a [Point] never
    fails. *)
Theorem intersections_errors :
  forall (shapely : list point -> list point -> option geometry)
         (points_line1 points_line2 : list point),
    (shapely points_line1 points_line2 = None /\
     polyline_polyline_intersections_call shapely points_line1 points_line2
     = Shapely_raises) \/
    (exists g out,
        shapely points_line1 points_line2 = Some g /\
        polyline_polyline_intersections_call shapely points_line1 points_line2
        = Completes (Ok out)) \/
    (exists g,
        shapely points_line1 points_line2 = Some g /\
        polyline_polyline_intersections_call shapely points_line1 points_line2
        = Completes (Raise ValueError_unimplemented_type) /\
        is_empty g = false /\
        ((exists gs, g = MultiLineString gs) \/
         (exists gs, g = GeometryCollection gs))).
Proof.
  intros shapely l1 l2. unfold polyline_polyline_intersections_call.
  destruct (shapely l1 l2) as [g|]; [|left; now split].
  right.
  destruct (polyline_polyline_intersections (fun _ _ => g) l1 l2)
    as [out|e] eqn:E.
  - left. now exists g, out.
  - right. exists g.
    destruct (intersections_raise_inversion (fun _ _ => g) l1 l2 e E)
      as [-> [Hne Hkind]].
    repeat split; assumption.
Qed.

Lemma candidates_empty (g : geometry) : is_empty g = true -> candidates g = [].
Proof.
  destruct g as [[|c cs]|[|c cs]| | |]; simpl; intros H;
    reflexivity || discriminate.
Qed.

(** When the two lines do not meet, whatever the type of the empty
    geometry (an empty collection included), the result is the empty
    list and nothing is raised. *)
Theorem intersections_empty :
  forall (intersection : list point -> list point -> geometry)
         (points_line1 points_line2 : list point),
    is_empty (intersection points_line1 points_line2) = true ->
    polyline_polyline_intersections intersection points_line1 points_line2
    = Ok [].
Proof.
  intros intersection l1 l2 H.
  rewrite intersections_supported.
  - now rewrite (candidates_empty _ H).
  - apply classify_supported. now left.
Qed.

Lemma intersections_empty_witness :
  polyline_polyline_intersections (fun _ _ => GeometryCollection [])
    [(0, 0); (1, 0)]%Q [(0, 1); (1, 1)]%Q = Ok [].
Proof.
  apply (intersections_empty (fun _ _ => GeometryCollection [])
           [(0, 0); (1, 0)]%Q [(0, 1); (1, 1)]%Q).
  reflexivity.
Defined.

Lemma filter_all {A : Type} (f : A -> bool) (l : list A) :
  (forall a, In a l -> f a = true) -> filter f l = l.
Proof.
  induction l as [|a l IH]; intros H; simpl; [reflexivity|].
  rewrite (H a) by now left.
  f_equal. apply IH. intros b Hb. apply H. now right.
Qed.

(** When no candidate point coincides with a vertex of line1 only (for
    instance when the lines cross away from line1's vertices), nothing is
    lost and nothing is added: the output is a rearrangement of the
    candidate points. *)
Theorem intersections_all_kept :
  forall (intersection : list point -> list point -> geometry)
         (points_line1 points_line2 out : list point),
    polyline_polyline_intersections intersection points_line1 points_line2
    = Ok out ->
    (forall p, In p (candidates (intersection points_line1 points_line2)) ->
               ~ is_vertex_of p points_line1 \/ is_vertex_of p points_line2) ->
    Permutation out (candidates (intersection points_line1 points_line2)).
Proof.
  intros intersection l1 l2 out H Hall.
  apply intersections_Ok in H. subst out.
  rewrite filter_all; [apply sorted_perm|].
  intros p Hp. apply kept_iff, Hall, Hp.
Qed.

Lemma intersections_all_kept_witness :
  Permutation [(1, 0); (3, 0)]%Q
    (candidates (two_crossings
                   [(0, 0); (4, 0)]%Q [(3, 1); (3, -1); (1, -1); (1, 1)]%Q)).
Proof.
  apply (intersections_all_kept two_crossings
           [(0, 0); (4, 0)]%Q [(3, 1); (3, -1); (1, -1); (1, 1)]%Q
           [(1, 0); (3, 0)]%Q).
  - reflexivity.
  - intros p Hp. left. intros [q [Hq [Hx Hy]]].
    simpl in Hp, Hq.
    destruct Hp as [<- | [<- | []]]; destruct Hq as [<- | [<- | []]];
      discriminate Hx.
Defined.

(** A single crossing point is either returned alone, when it is no
    vertex of line1 or is a vertex of line2, or dropped (empty result),
    when it is a vertex of line1 only. *)
Theorem intersections_single_point :
  forall (intersection : list point -> list point -> geometry)
         (points_line1 points_line2 : list point) (c : point) (cs : list point),
    intersection points_line1 points_line2 = Point (c :: cs) ->
    (polyline_polyline_intersections intersection points_line1 points_line2
     = Ok [c] /\
     (~ is_vertex_of c points_line1 \/ is_vertex_of c points_line2)) \/
    (polyline_polyline_intersections intersection points_line1 points_line2
     = Ok [] /\
     is_vertex_of c points_line1 /\ ~ is_vertex_of c points_line2).
Proof.
  intros intersection l1 l2 c cs Hg.
  assert (E : polyline_polyline_intersections intersection l1 l2
              = Ok (sorted fst (filter (kept l1 l2) [c]))).
  { rewrite intersections_supported; rewrite Hg; [reflexivity|].
    apply classify_supported. right. left. now exists (c :: cs). }
  rewrite E. cbn [filter].
  destruct (kept l1 l2 c) eqn:K.
  - left. split; [reflexivity | now apply kept_iff].
  - right. split; [reflexivity|].
    unfold kept in K. apply orb_false_iff in K. destruct K as [K1 K2].
    apply negb_false_iff in K1. split.
    + now apply contains_iff.
    + intros H. apply contains_iff in H. congruence.
Qed.

Lemma intersections_single_point_witness :
  (polyline_polyline_intersections touch_at_vertex
     [(0, 0); (2, 0); (4, 0)]%Q [(2, -1); (2, 1)]%Q = Ok [(2, 0)]%Q /\
   (~ is_vertex_of (2, 0)%Q [(0, 0); (2, 0); (4, 0)]%Q \/
    is_vertex_of (2, 0)%Q [(2, -1); (2, 1)]%Q)) \/
  (polyline_polyline_intersections touch_at_vertex
     [(0, 0); (2, 0); (4, 0)]%Q [(2, -1); (2, 1)]%Q = Ok [] /\
   is_vertex_of (2, 0)%Q [(0, 0); (2, 0); (4, 0)]%Q /\
   ~ is_vertex_of (2, 0)%Q [(2, -1); (2, 1)]%Q).
Proof.
  apply (intersections_single_point touch_at_vertex
           [(0, 0); (2, 0); (4, 0)]%Q [(2, -1); (2, 1)]%Q (2, 0)%Q []).
  reflexivity.
Defined.

(** ** Stability of [sorted] *)

Lemma insert_by_stable {A : Type} (key : A -> Q) (k : Q) (a : A) (l : list A) :
  filter (fun b => Qeq_bool (key b) k) (insert_by key a l) =
  filter (fun b => Qeq_bool (key b) k) (a :: l).
Proof.
  induction l as [|b l IH]; [reflexivity|].
  cbn [insert_by]. destruct (Qlt_bool (key b) (key a)) eqn:E; [|reflexivity].
  apply Qlt_bool_true in E.
  cbn [filter] in IH |- *. rewrite IH.
  destruct (Qeq_bool (key a) k) eqn:Ea; [|reflexivity].
  destruct (Qeq_bool (key b) k) eqn:Eb; [|reflexivity].
  apply Qeq_bool_iff in Ea, Eb. lra.
Qed.

Lemma sorted_stable {A : Type} (key : A -> Q) (k : Q) (l : list A) :
  filter (fun b => Qeq_bool (key b) k) (sorted key l) =
  filter (fun b => Qeq_bool (key b) k) l.
Proof.
  induction l as [|a l IH]; [reflexivity|].
  cbn [sorted fold_right]. rewrite insert_by_stable.
  cbn [filter]. fold (sorted key l). rewrite IH. reflexivity.
Qed.

(** Points of equal [x] come out in the order the intersection delivered
    them: for every [x], the output restricted to that [x] is the kept
    candidates restricted to it, in the same order. *)
Theorem intersections_ties_keep_order :
  forall (intersection : list point -> list point -> geometry)
         (points_line1 points_line2 out : list point) (k : Q),
    polyline_polyline_intersections intersection points_line1 points_line2
    = Ok out ->
    filter (fun p => Qeq_bool (fst p) k) out =
    filter (fun p => Qeq_bool (fst p) k)
      (filter (kept points_line1 points_line2)
         (candidates (intersection points_line1 points_line2))).
Proof.
  intros intersection l1 l2 out k H.
  apply intersections_Ok in H. subst out. apply sorted_stable.
Qed.

Lemma intersections_ties_keep_order_witness :
  filter (fun p => Qeq_bool (fst p) 2) [(2, 3); (2, 1)]%Q =
  filter (fun p => Qeq_bool (fst p) 2)
    (filter (kept [(2, 0); (2, 4)]%Q [(0, 3); (4, 3); (4, 1); (0, 1)]%Q)
       (candidates (MultiPoint [(2, 3); (2, 1)]%Q))).
Proof.
  apply (intersections_ties_keep_order
           (fun _ _ => MultiPoint [(2, 3); (2, 1)]%Q)
           [(2, 0); (2, 4)]%Q [(0, 3); (4, 3); (4, 1); (0, 1)]%Q
           [(2, 3); (2, 1)]%Q 2%Q).
  reflexivity.
Defined.

(** ** The validator built by [make_newline_validator] *)

Lemma count_app (c : ascii) (s t : str) :
  count c (s ++ t) = (count c s + count c t)%Z.
Proof. unfold count. rewrite filter_app, length_app. lia. Qed.

Lemma count_repeat (c : ascii) (n : nat) : count c (repeat c n) = Z.of_nat n.
Proof.
  unfold count. induction n as [|n IH]; [reflexivity|].
  cbn [repeat filter]. rewrite Ascii.eqb_refl. cbn [length]. lia.
Qed.

Lemma count_nonneg (c : ascii) (s : str) : (0 <= count c s)%Z.
Proof. unfold count. lia. Qed.

Lemma newlines_after_validation (req_newlines : Z) (v : str) :
  count newline (snd (field_must_contain_newlines req_newlines v))
  = Z.max (count newline v) req_newlines.
Proof.
  unfold field_must_contain_newlines.
  pose proof (count_nonneg newline v) as Hc.
  destruct (Z.ltb_spec (count newline v) req_newlines) as [Hlt | Hge];
    cbn [snd].
  - rewrite count_app, count_repeat. lia.
  - destruct (req_newlines <? count newline v)%Z; cbn [snd]; lia.
Qed.

(** The value returned is the input followed by as many newlines as are
    missing, and holds [max(newlines, req_newlines)] newlines: never fewer
    than required, and the input's own characters are never removed. *)
Theorem field_must_contain_newlines_pads :
  forall (req_newlines : Z) (v : str),
    snd (field_must_contain_newlines req_newlines v)
    = v ++ repeat newline (Z.to_nat (req_newlines - count newline v)) /\
    count newline (snd (field_must_contain_newlines req_newlines v))
    = Z.max (count newline v) req_newlines.
Proof.
  intros req v. split; [|apply newlines_after_validation].
  unfold field_must_contain_newlines.
  pose proof (count_nonneg newline v) as Hc.
  destruct (Z.ltb_spec (count newline v) req) as [Hlt | Hge]; cbn [snd].
  - reflexivity.
  - replace (Z.to_nat (req - count newline v)) with 0%nat by lia.
    cbn [repeat]. rewrite app_nil_r.
    destruct (req <? count newline v)%Z; reflexivity.
Qed.

(** Validating a validated value changes nothing and never logs that
    lines were added: the second pass is silent, or warns of too many
    lines exactly when the input had too many. *)
Theorem field_must_contain_newlines_idempotent :
  forall (req_newlines : Z) (v : str),
    field_must_contain_newlines req_newlines
      (snd (field_must_contain_newlines req_newlines v))
    = ((if (req_newlines <? count newline v)%Z
        then [Warning_more_than (req_newlines + 1)] else []),
       snd (field_must_contain_newlines req_newlines v)).
Proof.
  intros req v.
  pose proof (newlines_after_validation req v) as Hcount.
  set (w := snd (field_must_contain_newlines req v)) in *.
  unfold field_must_contain_newlines at 1. rewrite Hcount.
  destruct (Z.ltb_spec (Z.max (count newline v) req) req) as [H | H]; [lia|].
  destruct (Z.ltb_spec req (Z.max (count newline v) req)) as [H1 | H1];
    destruct (Z.ltb_spec req (count newline v)) as [H2 | H2];
    reflexivity || lia.
Qed.

(** ** Characters *)

Ltac each_ascii c :=
  destruct c as [[] [] [] [] [] [] [] []]; vm_compute;
  try reflexivity; try discriminate; try (intros; discriminate).

Lemma upper_underscore (c : ascii) :
  Ascii.eqb (upper c) underscore = Ascii.eqb c underscore.
Proof. each_ascii c. Qed.

Lemma lower_underscore (c : ascii) :
  Ascii.eqb (lower c) underscore = Ascii.eqb c underscore.
Proof. each_ascii c. Qed.

Lemma is_upper_lower (c : ascii) : is_upper (lower c) = false.
Proof. each_ascii c. Qed.

Lemma upper_lower_of_upper (c : ascii) : is_upper c = true -> upper (lower c) = c.
Proof. each_ascii c. Qed.

Lemma lower_of_lower (c : ascii) : is_lower c = true -> lower c = c.
Proof. each_ascii c. Qed.

Lemma lower_of_not_upper (c : ascii) : is_upper c = false -> lower c = c.
Proof. unfold lower. now intros ->. Qed.

Lemma is_cased_lower (c : ascii) : is_cased (lower c) = is_cased c.
Proof. each_ascii c. Qed.

Lemma upper_not_lower (c : ascii) : is_upper c = true -> is_lower c = false.
Proof. each_ascii c. Qed.

Lemma upper_not_underscore (c : ascii) :
  is_upper c = true -> Ascii.eqb c underscore = false.
Proof. each_ascii c. Qed.

Lemma cased_not_underscore (c : ascii) :
  is_cased c = true -> Ascii.eqb c underscore = false.
Proof. each_ascii c. Qed.

Lemma cased_not_newline (c : ascii) :
  is_cased c = true -> Ascii.eqb c newline = false.
Proof. each_ascii c. Qed.

Lemma cased_cases (c : ascii) :
  is_cased c = true ->
  (is_upper c = true /\ is_lower c = false) \/
  (is_upper c = false /\ is_lower c = true).
Proof.
  unfold is_cased. destruct (is_upper c) eqn:U.
  - intros _. left. split; [reflexivity | now apply upper_not_lower].
  - simpl. intros ->. now right.
Qed.

(** ** [snake_to_camel] *)

Lemma split_nonempty (sep : ascii) (s : str) : split sep s <> [].
Proof.
  destruct s as [|c s]; cbn [split]; [discriminate|].
  destruct (Ascii.eqb c sep); [discriminate|].
  destruct (split sep s); discriminate.
Qed.

(** Titling word by word is titling the whole name and leaving the
    underscores out, whatever the casing state at the start. *)
Lemma title_words (name : str) :
  forall b : bool,
    match split underscore name with
    | word :: words => title_from b word ++ concat (map title words)
    | [] => []
    end = drop_underscores (title_from b name).
Proof.
  induction name as [|c name IH]; intros b; [reflexivity|].
  cbn [split title_from].
  destruct (Ascii.eqb c underscore) eqn:E.
  - apply Ascii.eqb_eq in E. subst c.
    specialize (IH false).
    replace (if b then lower underscore else upper underscore)
      with underscore by (destruct b; reflexivity).
    replace (is_cased underscore) with false by reflexivity.
    unfold drop_underscores in *. cbn [filter].
    rewrite Ascii.eqb_refl. cbn [negb app].
    rewrite <- IH.
    destruct (split underscore name) as [|w ws]; reflexivity.
  - specialize (IH (is_cased c)).
    unfold drop_underscores in *. cbn [filter].
    replace (Ascii.eqb (if b then lower c else upper c) underscore) with false
      by (destruct b; [rewrite lower_underscore | rewrite upper_underscore];
          now rewrite E).
    cbn [negb]. rewrite <- IH.
    destruct (split underscore name) as [|w ws] eqn:Es.
    + now destruct (split_nonempty underscore name).
    + reflexivity.
Qed.

Lemma snake_to_camel_as_title (name : str) :
  snake_to_camel name = drop_underscores (title name).
Proof.
  unfold snake_to_camel, join_empty, title.
  rewrite <- (title_words name false).
  destruct (split underscore name) as [|w ws] eqn:E; reflexivity.
Qed.

(** [snake_to_camel] is [str.title] applied to the whole name with the
    underscores then left out: splitting on underscores and titling word
    by word changes nothing else. *)
Theorem snake_to_camel_is_title_without_underscores :
  forall name : str,
    ascii_only name ->
    snake_to_camel name = drop_underscores (title name).
Proof.
  intros name _. unfold snake_to_camel, join_empty, title.
  rewrite <- (title_words name false).
  destruct (split underscore name) as [|word words]; reflexivity.
Qed.

Lemma snake_to_camel_is_title_without_underscores_witness :
  snake_to_camel (of_string "soil_layer_2x"%string)
  = drop_underscores (title (of_string "soil_layer_2x"%string)).
Proof.
  apply (snake_to_camel_is_title_without_underscores
           (of_string "soil_layer_2x"%string)).
  repeat constructor.
Defined.

(** The result holds no underscore. *)
Theorem snake_to_camel_no_underscore :
  forall name : str,
    ascii_only name ->
    ~ In underscore (snake_to_camel name).
Proof.
  intros name _. rewrite snake_to_camel_as_title.
  unfold drop_underscores. intros H. apply filter_In in H.
  destruct H as [_ H]. rewrite Ascii.eqb_refl in H. discriminate.
Qed.

Lemma snake_to_camel_no_underscore_witness :
  ~ In underscore (snake_to_camel (of_string "_soil__layer_"%string)).
Proof.
  apply (snake_to_camel_no_underscore (of_string "_soil__layer_"%string)).
  repeat constructor.
Defined.

Lemma title_from_app (a b : str) (st : bool) :
  title_from st (a ++ underscore :: b)
  = title_from st a ++ underscore :: title_from false b.
Proof.
  revert st. induction a as [|c a IH]; intros st; cbn [app title_from].
  - destruct st; reflexivity.
  - now rewrite IH.
Qed.

(** Converting two names joined by an underscore is converting each and
    putting the results side by side. *)
Theorem snake_to_camel_joins :
  forall a b : str,
    ascii_only a -> ascii_only b ->
    snake_to_camel (a ++ underscore :: b) = snake_to_camel a ++ snake_to_camel b.
Proof.
  intros a b _ _. rewrite !snake_to_camel_as_title.
  unfold title, drop_underscores. rewrite title_from_app, filter_app.
  cbn [filter]. rewrite Ascii.eqb_refl. reflexivity.
Qed.

Lemma snake_to_camel_joins_witness :
  snake_to_camel (of_string "soil"%string ++ underscore :: of_string "layer"%string)
  = snake_to_camel (of_string "soil"%string)
    ++ snake_to_camel (of_string "layer"%string).
Proof.
  apply (snake_to_camel_joins (of_string "soil"%string) (of_string "layer"%string));
    repeat constructor.
Defined.

(** ** [camel_to_snake] *)

(** Induction on a string with the tail and the tail's tail's tail at
    hand, as the first substitution looks two characters ahead. *)
Lemma str_ind2 (P : str -> Prop) :
  P [] ->
  (forall c s, P s -> P (tl (tl s)) -> P (c :: s)) ->
  forall s, P s.
Proof.
  intros H0 Hstep s.
  assert (H : P s /\ P (tl s) /\ P (tl (tl s))).
  { induction s as [|c s [IH1 [IH2 IH3]]]; [now repeat split|].
    cbn [tl]. repeat split; [now apply Hstep | exact IH1 | exact IH2]. }
  apply H.
Qed.

(** One step of the first substitution: the character is copied and the
    scan goes on, or a match starts here. *)
Lemma sub_char_word_from_cases (m : bool) (c : ascii) (s : str) :
  (exists m', sub_char_word_from m (c :: s) = c :: sub_char_word_from m' s) \/
  (exists u l s'',
      s = u :: l :: s'' /\ is_upper u = true /\ is_lower l = true /\
      sub_char_word_from m (c :: s)
      = c :: underscore :: u :: l :: sub_char_word_from true s'').
Proof.
  cbn [sub_char_word_from].
  destruct (m && is_lower c); [left; now exists true|].
  destruct s as [|u [|l s'']]; try (left; now exists false).
  destruct (negb (Ascii.eqb c newline) && is_upper u && is_lower l) eqn:E;
    [|left; now exists false].
  apply andb_true_iff in E. destruct E as [E El].
  apply andb_true_iff in E. destruct E as [_ Eu].
  right. exists u, l, s''. now repeat split.
Qed.

(** The first substitution only inserts underscores. *)
Lemma sub_char_word_from_drop (s : str) :
  forall m, drop_underscores (sub_char_word_from m s) = drop_underscores s.
Proof.
  induction s as [|c s IH IH2] using str_ind2; intros m; [reflexivity|].
  destruct (sub_char_word_from_cases m c s)
    as [[m' E] | [u [l [s'' [-> [Hu [Hl E]]]]]]]; rewrite E.
  - unfold drop_underscores in *. cbn [filter]. now rewrite IH.
  - cbn [tl] in IH2. unfold drop_underscores in *. cbn [filter].
    rewrite Ascii.eqb_refl. cbn [negb]. now rewrite IH2.
Qed.

Lemma pattern_sub_drop (s : str) :
  drop_underscores (CAMEL_TO_SNAKE_PATTERN_sub s) = drop_underscores s.
Proof.
  destruct s as [|c s]; [reflexivity|].
  assert (E : drop_underscores
                (flat_map (fun d => if is_upper d then [underscore; d] else [d]) s)
              = drop_underscores s).
  { unfold drop_underscores. induction s as [|d s IH]; [reflexivity|].
    cbn [flat_map]. destruct (is_upper d); cbn [app filter];
      [rewrite Ascii.eqb_refl; cbn [negb]|]; now rewrite IH. }
  unfold drop_underscores in *. cbn [CAMEL_TO_SNAKE_PATTERN_sub filter].
  now rewrite E.
Qed.

Lemma str_lower_drop (s : str) :
  drop_underscores (str_lower s) = str_lower (drop_underscores s).
Proof.
  unfold drop_underscores, str_lower.
  induction s as [|c s IH]; [reflexivity|].
  cbn [map filter]. rewrite lower_underscore.
  destruct (negb (Ascii.eqb c underscore)); cbn [map]; now rewrite IH.
Qed.

(** Apart from underscores, the result is the name in lower case: the
    function inserts underscores and lowers letters, and does nothing
    else. *)
Theorem camel_to_snake_only_inserts_underscores :
  forall name : str,
    ascii_only name ->
    drop_underscores (camel_to_snake name) = str_lower (drop_underscores name).
Proof.
  intros name _. unfold camel_to_snake, sub_char_word.
  now rewrite str_lower_drop, pattern_sub_drop, sub_char_word_from_drop.
Qed.

Lemma camel_to_snake_only_inserts_underscores_witness :
  drop_underscores (camel_to_snake (of_string "HTTPResponse_Code2"%string))
  = str_lower (drop_underscores (of_string "HTTPResponse_Code2"%string)).
Proof.
  apply (camel_to_snake_only_inserts_underscores
           (of_string "HTTPResponse_Code2"%string)).
  repeat constructor.
Defined.

(** The result holds no upper-case letter. *)
Theorem camel_to_snake_no_upper :
  forall name : str,
    ascii_only name ->
    no_upper (camel_to_snake name).
Proof.
  intros name _. unfold camel_to_snake, str_lower, no_upper.
  apply Forall_map, Forall_forall. intros c _. apply is_upper_lower.
Qed.

Lemma camel_to_snake_no_upper_witness :
  no_upper (camel_to_snake (of_string "HTTPResponse"%string)).
Proof.
  apply (camel_to_snake_no_upper (of_string "HTTPResponse"%string)).
  repeat constructor.
Defined.

Lemma sub_char_word_from_no_upper (s : str) :
  no_upper s -> forall m, sub_char_word_from m s = s.
Proof.
  induction s as [|c s IH IH2] using str_ind2; intros Hs m; [reflexivity|].
  apply Forall_cons_iff in Hs. destruct Hs as [_ Hs].
  destruct (sub_char_word_from_cases m c s)
    as [[m' E] | [u [l [s'' [-> [Hu [Hl E]]]]]]].
  - rewrite E. now rewrite IH.
  - apply Forall_cons_iff in Hs. destruct Hs as [Hu' _]. congruence.
Qed.

Lemma pattern_sub_no_upper (s : str) :
  no_upper s -> CAMEL_TO_SNAKE_PATTERN_sub s = s.
Proof.
  destruct s as [|c s]; [reflexivity|]. intros Hs.
  apply Forall_cons_iff in Hs. destruct Hs as [_ Hs].
  cbn [CAMEL_TO_SNAKE_PATTERN_sub]. f_equal.
  induction Hs as [|d s Hd Hs IH]; [reflexivity|].
  cbn [flat_map]. rewrite Hd. cbn [app]. now rewrite IH.
Qed.

Lemma str_lower_no_upper (s : str) : no_upper s -> str_lower s = s.
Proof.
  induction 1 as [|c s Hc Hs IH]; [reflexivity|].
  unfold str_lower in *. cbn [map]. rewrite IH. f_equal.
  now apply lower_of_not_upper.
Qed.

Lemma camel_to_snake_fixed (name : str) :
  no_upper name -> camel_to_snake name = name.
Proof.
  intros H. unfold camel_to_snake, sub_char_word.
  rewrite sub_char_word_from_no_upper by exact H.
  rewrite pattern_sub_no_upper by exact H.
  now apply str_lower_no_upper.
Qed.

(** A name without upper-case letters (a snake-case name, say) comes back
    unchanged; hence converting twice is converting once. *)
Theorem camel_to_snake_idempotent :
  (forall name : str,
      ascii_only name -> no_upper name -> camel_to_snake name = name) /\
  (forall name : str,
      ascii_only name ->
      camel_to_snake (camel_to_snake name) = camel_to_snake name).
Proof.
  split.
  - intros name _. apply camel_to_snake_fixed.
  - intros name _. apply camel_to_snake_fixed.
    unfold camel_to_snake, str_lower, no_upper.
    apply Forall_map, Forall_forall. intros c _. apply is_upper_lower.
Qed.

Lemma camel_to_snake_idempotent_witness :
  camel_to_snake (of_string "soil_layer_2"%string)
  = of_string "soil_layer_2"%string /\
  camel_to_snake (camel_to_snake (of_string "SoilLayer"%string))
  = camel_to_snake (of_string "SoilLayer"%string).
Proof.
  split.
  - apply (proj1 camel_to_snake_idempotent (of_string "soil_layer_2"%string));
      repeat constructor.
  - apply (proj2 camel_to_snake_idempotent (of_string "SoilLayer"%string)).
    repeat constructor.
Defined.

(** ** [snake_to_camel] after [camel_to_snake] *)

Lemma str_lower_pattern_sub (c : ascii) (s : str) :
  str_lower (CAMEL_TO_SNAKE_PATTERN_sub (c :: s))
  = lower c :: flat_map underscored_lower s.
Proof.
  unfold str_lower. cbn [CAMEL_TO_SNAKE_PATTERN_sub map]. f_equal.
  induction s as [|d s IH]; [reflexivity|].
  cbn [flat_map]. rewrite map_app, IH. unfold underscored_lower.
  destruct (is_upper d); reflexivity.
Qed.

(** Titling the lowered, underscored form of a letter gives the letter
    back, when the character before it was a letter. *)
Lemma retitle_letter (c : ascii) (s : str) :
  is_cased c = true ->
  drop_underscores (title_from true (flat_map underscored_lower (c :: s)))
  = c :: drop_underscores (title_from true (flat_map underscored_lower s)).
Proof.
  intros Hc. cbn [flat_map]. unfold underscored_lower at 1.
  destruct (cased_cases c Hc) as [[Hu Hl] | [Hu Hl]]; rewrite Hu;
    cbn [app title_from]; unfold drop_underscores; cbn [filter].
  - replace (Ascii.eqb (lower underscore) underscore) with true by reflexivity.
    replace (is_cased underscore) with false by reflexivity.
    cbn [negb]. rewrite (upper_lower_of_upper c Hu).
    rewrite (cased_not_underscore c Hc). cbn [negb].
    now rewrite is_cased_lower, Hc.
  - rewrite (lower_of_not_upper c Hu), (lower_of_not_upper c Hu).
    rewrite (cased_not_underscore c Hc). cbn [negb]. now rewrite Hc.
Qed.

Lemma retitle_after_underscore (u : ascii) (s : str) :
  is_upper u = true ->
  drop_underscores
    (title_from true (flat_map underscored_lower (underscore :: u :: s)))
  = u :: drop_underscores (title_from true (flat_map underscored_lower s)).
Proof.
  intros Hu.
  assert (Hc : is_cased u = true) by (unfold is_cased; now rewrite Hu).
  cbn [flat_map]. unfold underscored_lower at 1 2. rewrite Hu.
  replace (is_upper underscore) with false by reflexivity.
  replace (lower underscore) with underscore by reflexivity.
  cbn [app title_from]. unfold drop_underscores. cbn [filter].
  replace (Ascii.eqb (lower underscore) underscore) with true by reflexivity.
  replace (Ascii.eqb (upper underscore) underscore) with true by reflexivity.
  replace (is_cased underscore) with false by reflexivity.
  cbn [negb]. rewrite (upper_lower_of_upper u Hu).
  rewrite (cased_not_underscore u Hc). cbn [negb].
  now rewrite is_cased_lower, Hc.
Qed.

Lemma retitle_sub_char_word (s : str) :
  letters_only s ->
  forall m,
    drop_underscores
      (title_from true (flat_map underscored_lower (sub_char_word_from m s)))
    = s.
Proof.
  induction s as [|c s IH IH2] using str_ind2; intros Hs m; [reflexivity|].
  apply Forall_cons_iff in Hs. destruct Hs as [Hc Hs].
  destruct (sub_char_word_from_cases m c s)
    as [[m' E] | [u [l [s'' [-> [Hu [Hl E]]]]]]]; rewrite E.
  - rewrite (retitle_letter _ _ Hc). now rewrite IH.
  - cbn [tl] in IH2.
    apply Forall_cons_iff in Hs. destruct Hs as [_ Hs].
    apply Forall_cons_iff in Hs. destruct Hs as [Hlc Hs].
    rewrite (retitle_letter _ _ Hc).
    rewrite (retitle_after_underscore _ _ Hu).
    rewrite (retitle_letter _ _ Hlc).
    now rewrite IH2.
Qed.

Lemma sub_char_word_from_head (m : bool) (c : ascii) (s : str) :
  exists r, sub_char_word_from m (c :: s) = c :: r.
Proof.
  destruct (sub_char_word_from_cases m c s)
    as [[m' E] | [u [l [s'' [_ [_ [_ E]]]]]]]; rewrite E; eexists; reflexivity.
Qed.

(** Round trip: a name made of letters only that starts with an
    upper-case letter (a CamelCase name) is recovered by [snake_to_camel]
    from its [camel_to_snake] form. *)
Theorem snake_to_camel_camel_to_snake :
  forall name : str,
    letters_only name ->
    starts_upper name ->
    snake_to_camel (camel_to_snake name) = name.
Proof.
  intros [|c s] Hletters Hstart; [reflexivity|].
  cbn [starts_upper] in Hstart.
  pose proof (retitle_sub_char_word (c :: s) Hletters false) as HK.
  rewrite snake_to_camel_as_title. unfold camel_to_snake, sub_char_word.
  destruct (sub_char_word_from_head false c s) as [r Er].
  rewrite Er in HK |- *.
  apply Forall_cons_iff in Hletters. destruct Hletters as [Hc _].
  rewrite (retitle_letter _ _ Hc) in HK. injection HK as HK.
  rewrite str_lower_pattern_sub. unfold title. cbn [title_from].
  unfold drop_underscores in *. cbn [filter].
  rewrite (upper_lower_of_upper c Hstart), (cased_not_underscore c Hc).
  cbn [negb]. rewrite is_cased_lower, Hc. now rewrite HK.
Qed.

Lemma snake_to_camel_camel_to_snake_witness :
  snake_to_camel (camel_to_snake (of_string "HTTPResponseCode"%string))
  = of_string "HTTPResponseCode"%string.
Proof.
  apply (snake_to_camel_camel_to_snake (of_string "HTTPResponseCode"%string)).
  - repeat constructor.
  - reflexivity.
Defined.

(** ** Two words in a row *)

Lemma lower_not_upper (c : ascii) : is_lower c = true -> is_upper c = false.
Proof. each_ascii c. Qed.

Lemma lower_is_cased (c : ascii) : is_lower c = true -> is_cased c = true.
Proof. unfold is_cased. intros ->. apply orb_true_r. Qed.

Lemma all_lower_no_upper (s : str) : all_lower s -> no_upper s.
Proof.
  unfold all_lower, no_upper. apply Forall_impl. exact lower_not_upper.
Qed.

(** Inside a match the lower-case letters are copied. *)
Lemma sub_char_word_from_run (s : str) :
  all_lower s -> sub_char_word_from true s = s.
Proof.
  induction 1 as [|c s Hc Hs IH]; [reflexivity|].
  cbn [sub_char_word_from]. rewrite Hc. cbn [andb]. now rewrite IH.
Qed.

(** The scan of a word finds its match at the word's last character. *)
Lemma sub_char_word_from_scan (u l : ascii) (rest : str) :
  is_upper u = true -> is_lower l = true -> all_lower rest ->
  forall (ls : str) (c : ascii),
    all_lower ls -> Ascii.eqb c newline = false ->
    sub_char_word_from false (c :: ls ++ u :: l :: rest)
    = c :: ls ++ underscore :: u :: l :: rest.
Proof.
  intros Hu Hl Hrest. induction ls as [|a ls IH]; intros c Hls Hc.
  - cbn [app sub_char_word_from andb]. rewrite Hc, Hu, Hl. cbn [negb andb].
    now rewrite (sub_char_word_from_run rest Hrest).
  - apply Forall_cons_iff in Hls. destruct Hls as [Ha Hls].
    assert (E : sub_char_word_from false (c :: (a :: ls) ++ u :: l :: rest)
                = c :: sub_char_word_from false ((a :: ls) ++ u :: l :: rest)).
    { cbn [app sub_char_word_from andb].
      rewrite (lower_not_upper a Ha), andb_false_r. cbn [andb].
      destruct ls; reflexivity. }
    rewrite E. cbn [app]. rewrite IH; [reflexivity | exact Hls |].
    apply cased_not_newline, lower_is_cased, Ha.
Qed.

Lemma flat_map_no_upper (s : str) :
  no_upper s ->
  flat_map (fun d => if is_upper d then [underscore; d] else [d]) s = s.
Proof.
  induction 1 as [|d s Hd Hs IH]; [reflexivity|].
  cbn [flat_map]. rewrite Hd. cbn [app]. now rewrite IH.
Qed.

(** Two words in a row, each an upper-case letter followed by lower-case
    letters (the second by at least one), come out in lower case with TWO
    underscores between them: both substitutions put one in front of the
    second word. *)
Theorem camel_to_snake_two_words :
  forall (w1 : str) (u l : ascii) (rest : str),
    capitalised w1 ->
    is_upper u = true -> is_lower l = true -> all_lower rest ->
    camel_to_snake (w1 ++ u :: l :: rest)
    = str_lower w1 ++ underscore :: underscore :: str_lower (u :: l :: rest).
Proof.
  intros [|c ls] u l rest Hw1 Hu Hl Hrest; [contradiction|].
  destruct Hw1 as [Hc Hls].
  assert (Hcn : Ascii.eqb c newline = false).
  { apply cased_not_newline. unfold is_cased. now rewrite Hc. }
  unfold camel_to_snake, sub_char_word. cbn [app].
  rewrite (sub_char_word_from_scan u l rest Hu Hl Hrest ls c Hls Hcn).
  cbn [CAMEL_TO_SNAKE_PATTERN_sub].
  rewrite flat_map_app, (flat_map_no_upper ls (all_lower_no_upper ls Hls)).
  cbn [flat_map]. rewrite Hu, (lower_not_upper l Hl).
  replace (is_upper underscore) with false by reflexivity.
  rewrite (flat_map_no_upper rest (all_lower_no_upper rest Hrest)).
  unfold str_lower. cbn [app map]. rewrite map_app. reflexivity.
Qed.

Lemma camel_to_snake_two_words_witness :
  camel_to_snake (of_string "Soil"%string ++ "L" :: "a" :: of_string "yer"%string)%char
  = str_lower (of_string "Soil"%string)
    ++ underscore :: underscore
       :: str_lower ("L" :: "a" :: of_string "yer"%string)%char.
Proof.
  apply (camel_to_snake_two_words
           (of_string "Soil"%string) "L"%char "a"%char (of_string "yer"%string)).
  - split; [reflexivity | repeat constructor].
  - reflexivity.
  - reflexivity.
  - repeat constructor.
Defined.

Example camel_to_snake_soil_layer :
  camel_to_snake (of_string "SoilLayer"%string) = of_string "soil__layer"%string.
Proof. reflexivity. Qed.
